(** * gate_matrix_data_gathering: the telemetry ingestion core

    A shallow embedding of [src/movesensor.py] and [src/annotation.py]:
    the discovery loop, the GATT session with its teardown, the notification
    handler, the queue consumer and the CSV flush.

    Conventions.
    - A Python exception is a [Raise] result; the state reached before the
      exception is kept, as side effects are in Python.
    - The BLE transport, the wall clock and the annotation window's buttons
      are the environment: an [environment] record fixes what one run meets.
    - [logger.info] and [print] calls do not influence control flow and are
      left out; the accessor calls made to build the printed message are kept,
      because they can raise.
    - A 32-bit float is its IEEE-754 binary32 datum ([spec_float]). *)

From Stdlib Require Import ZArith Lia List QArith.
From Stdlib Require Import Strings.String Strings.Ascii Strings.Byte.
From Stdlib Require Import Floats.SpecFloat.
From stdpp Require Import base list strings.

Close Scope Q_scope.
Local Open Scope string_scope.
Local Open Scope list_scope.
Local Open Scope Z_scope.

(** ** Results and exceptions *)

Inductive request : Type :=
| Connect (address : string)
| StartNotify (uuid : string)
| WriteGattChar (uuid : string) (payload : list byte) (response : bool)
| StopNotify (uuid : string)
| Disconnect.

Inductive exn : Type :=
| OutOfBounds
| BleakError (failed : request).

Inductive result (A : Type) : Type :=
| Ok (a : A)
| Raise (e : exn).
Arguments Ok {A} a.
Arguments Raise {A} e.

(** ** src/binary_parser.py: DataView *)

Module binary_parser.

Definition byte_val (b : byte) : Z := Z.of_N (Byte.to_N b).

(** Little-endian value of a byte string: the first byte is the least
    significant one. *)
Fixpoint le_uint (bs : list byte) : Z :=
  match bs with
  | [] => 0
  | b :: bs' => Z.lor (byte_val b) (Z.shiftl (le_uint bs') 8)
  end.

(** IEEE-754 binary32: bit 31 is the sign, bits 30..23 the biased exponent,
    bits 22..0 the fraction. *)
Definition float32_of_bits (w : Z) : spec_float :=
  let s := Z.testbit w 31 in
  let e := Z.land (Z.shiftr w 23) 255 in
  let m := Z.land w (Z.ones 23) in
  if e =? 0 then
    if m =? 0 then S754_zero s else S754_finite s (Z.to_pos m) (-149)
  else if e =? 255 then
    if m =? 0 then S754_infinity s else S754_nan
  else S754_finite s (Z.to_pos (Z.lor m (Z.shiftl 1 23))) (e - 150).

(** The rational a finite binary32 datum denotes. *)
Definition Q_of_float32 (f : spec_float) : option Q :=
  match f with
  | S754_zero _ => Some (Qmake 0 1)
  | S754_finite s m e =>
      let mag := if 0 <=? e then Qmake (Z.pos m * 2 ^ e) 1
                 else Qmake (Z.pos m) (Z.to_pos (2 ^ (- e))) in
      Some (Qred (if s then Qopp mag else mag))
  | _ => None
  end.

Record DataView : Type := { buffer : list byte }.

(** The bytes every accessor reads: [width] bytes from [offset], or the
    bounds failure. *)
Definition field (d : DataView) (offset width : nat) : result (list byte) :=
  if decide (offset + width <= length (buffer d))%nat
  then Ok (take width (drop offset (buffer d)))
  else Raise OutOfBounds.

(** Modelled from the spec: [src/binary_parser.py] (class [DataView]) is
    not among the sources. [read_u32(offset)] "reads 4 bytes at [offset] in
    the sensor's native byte order (little-endian), fails with
    [DecodeError::OutOfBounds] if [offset+4] exceeds buffer length". *)
Definition get_uint_32 (d : DataView) (offset : nat) : result Z :=
  match field d offset 4 with
  | Ok bs => Ok (le_uint bs)
  | Raise e => Raise e
  end.

(** Modelled from the spec: [src/binary_parser.py] (class [DataView]) is
    not among the sources. [read_f32(offset)] "reads 4 bytes at [offset],
    reinterprets per IEEE-754 binary32 in the same byte order, same bounds
    failure mode". *)
Definition get_float_32 (d : DataView) (offset : nat) : result spec_float :=
  match field d offset 4 with
  | Ok bs => Ok (float32_of_bits (le_uint bs))
  | Raise e => Raise e
  end.

End binary_parser.

(** ** src/models.py: Acceleration *)

Module models.

(** The record built by [notification_handler]; the fields are those of
    the constructor call in [movesensor.py]. *)
Record Acceleration : Type := {
  timestamp : Z;
  timestamp_local : string;
  ax : spec_float;
  ay : spec_float;
  az : spec_float;
  fall_state : string
}.

Inductive cell : Type :=
| CStr (s : string)
| CInt (n : Z)
| CFloat (f : spec_float).

(** Modelled from the spec: [src/models.py] is not among the sources. The
    output has the "header row: timestamp, timestamp_local, ax, ay, az,
    fall_state; one row per Reading": a row carries the six fields in the
    header's order. *)
Definition as_csv_field (a : Acceleration) : list cell :=
  [CInt (timestamp a); CStr (timestamp_local a);
   CFloat (ax a); CFloat (ay a); CFloat (az a); CStr (fall_state a)].

End models.

(** ** src/annotation.py: AnnotateAccelerometerData *)

Module annotation.

Record AnnotateAccelerometerData : Type := { fall_state : string }.

(** [__init__] *)
Definition init : AnnotateAccelerometerData := {| fall_state := "default" |}.

Definition fall_button_clicked (self : AnnotateAccelerometerData)
  : AnnotateAccelerometerData := {| fall_state := "Start" |}.

Definition not_fall_button_clicked (self : AnnotateAccelerometerData)
  : AnnotateAccelerometerData := {| fall_state := "Stop" |}.

End annotation.

(** ** src/movesensor.py *)

Module movesensor.
Import binary_parser models.

Definition SENSOR_ID : string := "223430000278".
Definition WRITE_CHARACTERISTIC_UUID : string := "34800001-7185-4d5d-b431-630e7050e8f0".
Definition NOTIFY_CHARACTERISTIC_UUID : string := "34800002-7185-4d5d-b431-630e7050e8f0".

(** One entry of [discover()]'s result; [name] is [None] when the
    advertisement carries no name. *)
Record device : Type := { name : option string; address : string }.

(** What can happen while the session awaits [disconnected_event]: the
    transport delivers a payload (with the wall clock read by the handler),
    or the operator presses one of the two buttons. *)
Inductive event : Type :=
| Notification (data : list byte) (now : string)
| FallButton
| NotFallButton.

Record environment : Type := {
  discover : list device;       (* the result of [await discover()] *)
  accepts : request -> bool;    (* [false]: the client call raises *)
  incoming : list event;        (* events until [disconnected_event] is set *)
  is_connected : bool           (* [client.is_connected] read at teardown *)
}.

(** An item of the [asyncio.Queue]: a reading, or [None], the sentinel. *)
Definition item : Type := option Acceleration.

Record state : Type := {
  queue : list item;                               (* every item put, in order *)
  annotation : annotation.AnnotateAccelerometerData; (* the global [annotation] *)
  gatt : list request;                             (* client calls, in order *)
  emitted : list Acceleration;                     (* [data_received_signal.emit] *)
  task_exceptions : list exn                       (* handler tasks that raised *)
}.

Definition initial_state : state :=
  {| queue := []; annotation := annotation.init; gatt := [];
     emitted := []; task_exceptions := [] |}.

(** *** The state and exception monad of the session *)

Definition M (A : Type) : Type := state -> result A * state.

Definition ret {A : Type} (a : A) : M A := fun s => (Ok a, s).

Definition bind {A B : Type} (m : M A) (k : A -> M B) : M B :=
  fun s =>
    match m s with
    | (Ok a, s') => k a s'
    | (Raise e, s') => (Raise e, s')
    end.

Declare Scope session_scope.
Delimit Scope session_scope with session.
Notation "x <-- m ; k" := (bind m (fun x => k))
  (at level 100, m at next level, k at level 200, right associativity) : session_scope.
Notation "m ;; k" := (bind m (fun _ => k))
  (at level 100, k at level 200, right associativity) : session_scope.
Local Open Scope session_scope.

Definition lift {A : Type} (r : result A) : M A := fun s => (r, s).

(** [await queue.put(x)] on the unbounded queue *)
Definition queue_put (x : item) : M unit :=
  fun s => (Ok tt,
            {| queue := queue s ++ [x]; annotation := annotation s; gatt := gatt s;
               emitted := emitted s; task_exceptions := task_exceptions s |}).

(** [data_received_signal.emit(acc_data)] *)
Definition emit (a : Acceleration) : M unit :=
  fun s => (Ok tt,
            {| queue := queue s; annotation := annotation s; gatt := gatt s;
               emitted := emitted s ++ [a]; task_exceptions := task_exceptions s |}).

(** [annotation.fall_state] *)
Definition get_fall_state : M string :=
  fun s => (Ok (annotation.fall_state (annotation s)), s).

Definition set_annotation (a : annotation.AnnotateAccelerometerData) (s : state) : state :=
  {| queue := queue s; annotation := a; gatt := gatt s;
     emitted := emitted s; task_exceptions := task_exceptions s |}.

Definition record_task_exception (e : exn) (s : state) : state :=
  {| queue := queue s; annotation := annotation s; gatt := gatt s;
     emitted := emitted s; task_exceptions := task_exceptions s ++ [e] |}.

(** A call on the GATT client: it is issued, and raises when the transport
    refuses it. *)
Definition call (env : environment) (r : request) : M unit :=
  fun s =>
    let s' := {| queue := queue s; annotation := annotation s; gatt := gatt s ++ [r];
                 emitted := emitted s; task_exceptions := task_exceptions s |} in
    if accepts env r then (Ok tt, s') else (Raise (BleakError r), s').

(** [async with BleakClient(address, ...) as client: body]. When the connect
    raises, neither the body nor the exit runs; otherwise the exit
    (disconnect) runs whatever the body did. *)
Definition with_client {A : Type} (env : environment) (address : string) (body : M A) : M A :=
  fun s =>
    match call env (Connect address) s with
    | (Raise e, s1) => (Raise e, s1)
    | (Ok _, s1) =>
        let (r, s2) := body s1 in
        match call env Disconnect s2 with
        | (Raise e, s3) => (Raise e, s3)
        | (Ok _, s3) => (r, s3)
        end
    end.

(** *** Discovery *)

(** [str.endswith] *)
Definition endswith (s suffix : string) : bool :=
  (String.length suffix <=? String.length s)%nat
  && String.eqb (substring (String.length s - String.length suffix)
                           (String.length suffix) s) suffix.

(** Python truth value of [d.name]: [None] and the empty string are false. *)
Definition truthy (n : option string) : bool :=
  match n with
  | None => false
  | Some EmptyString => false
  | Some (String _ _) => true
  end.

(** [d.name and d.name.endswith(end_of_serial)] *)
Definition name_test (end_of_serial : string) (d : device) : bool :=
  match name d with
  | Some n => if truthy (name d) then endswith n end_of_serial else false
  | None => false
  end.

(** The [for d in devices] loop with its [break]. The result is [address];
    [found] is [True] exactly when an address was assigned. *)
Fixpoint scan (end_of_serial : string) (devices : list device) : option string :=
  match devices with
  | [] => None
  | d :: rest =>
      if name_test end_of_serial d then Some (address d)
      else scan end_of_serial rest
  end.

(** *** The notification handler *)

Definition notification_handler (data : list byte) (now : string) : M unit :=
  let d := {| buffer := data |} in
  (* the arguments of the printed message *)
  _ <-- lift (get_uint_32 d 2);
  _ <-- lift (get_float_32 d 6);
  _ <-- lift (get_float_32 d 10);
  _ <-- lift (get_float_32 d 14);
  (* the arguments of [Acceleration(...)] *)
  ts <-- lift (get_uint_32 d 2);
  x <-- lift (get_float_32 d 6);
  y <-- lift (get_float_32 d 10);
  z <-- lift (get_float_32 d 14);
  fs <-- get_fall_state;
  let acc_data := {| timestamp := ts; timestamp_local := now;
                     ax := x; ay := y; az := z; fall_state := fs |} in
  emit acc_data;;
  queue_put (Some acc_data).

(** One event. The transport runs the coroutine handler as a task of its
    own: an exception it raises ends that task, is kept by the event loop,
    and reaches neither the session coroutine nor later handler tasks. *)
Definition deliver (ev : event) : M unit :=
  fun s =>
    match ev with
    | Notification data now =>
        match notification_handler data now s with
        | (Ok _, s') => (Ok tt, s')
        | (Raise e, s') => (Ok tt, record_task_exception e s')
        end
    | FallButton =>
        (Ok tt, set_annotation (annotation.fall_button_clicked (annotation s)) s)
    | NotFallButton =>
        (Ok tt, set_annotation (annotation.not_fall_button_clicked (annotation s)) s)
    end.

(** [await disconnected_event.wait()]: the events that come before the
    disconnect signal are served in order. *)
Fixpoint wait_disconnected (evs : list event) : M unit :=
  match evs with
  | [] => ret tt
  | ev :: rest => deliver ev;; wait_disconnected rest
  end.

(** *** The session *)

Definition subscribe_command : list byte :=
  [x01; x63] ++ list_byte_of_string "/Meas/Acc/13".   (* bytearray([1, 99]) + path *)

Definition unsubscribe_command : list byte := [x02; x63]. (* bytearray([2, 99]) *)

Definition run_ble_client (env : environment) (end_of_serial : string) : M unit :=
  match scan end_of_serial (discover env) with
  | Some address =>
      with_client env address
        (call env (StartNotify NOTIFY_CHARACTERISTIC_UUID);;
         call env (WriteGattChar WRITE_CHARACTERISTIC_UUID subscribe_command true);;
         wait_disconnected (incoming env);;
         (if is_connected env then
            call env (WriteGattChar WRITE_CHARACTERISTIC_UUID unsubscribe_command true);;
            call env (StopNotify NOTIFY_CHARACTERISTIC_UUID)
          else ret tt);;
         queue_put None)
  | None => queue_put None
  end.

(** *** The sink *)

Definition csv : Type := list (list cell).

Definition head : list cell :=
  [CStr "timestamp"; CStr "timestamp_local"; CStr "ax"; CStr "ay"; CStr "az";
   CStr "fall_state"].

Record sink : Type := {
  DATA_POINTS : list Acceleration;  (* the module-level list *)
  files : list csv;                 (* files written so far *)
  running : bool                    (* [false] once the loop has left by [break] *)
}.

Definition initial_sink : sink := {| DATA_POINTS := []; files := []; running := true |}.

Definition save_as_csv (k : sink) : sink :=
  {| DATA_POINTS := DATA_POINTS k;
     files := files k ++ [head :: map as_csv_field (DATA_POINTS k)];
     running := running k |}.

(** The body of [while True], for the item that [queue.get()] returned. *)
Definition consume (data : item) (k : sink) : sink :=
  match data with
  | None =>
      let k' := save_as_csv k in
      {| DATA_POINTS := DATA_POINTS k'; files := files k'; running := false |}
  | Some d =>
      {| DATA_POINTS := DATA_POINTS k ++ [d]; files := files k; running := running k |}
  end.

(** The consumer over the items that are put on the queue, oldest first.
    It returns the sink and what it left on the queue; on the empty queue it
    is suspended in [queue.get()]. *)
Fixpoint run_queue_consumer (q : list item) (k : sink) : sink * list item :=
  match q with
  | [] => (k, [])
  | data :: rest =>
      let k' := consume data k in
      if running k' then run_queue_consumer rest k' else (k', rest)
  end.

(** [main]: both coroutines on one loop. The consumer sees the items in the
    order the client put them; when the client raises, [gather] raises and
    the consumer is cancelled where it stands. *)
Definition main (env : environment) (end_of_serial : string)
  : result unit * state * sink :=
  let (r, s) := run_ble_client env end_of_serial initial_state in
  (r, s, fst (run_queue_consumer (queue s) initial_sink)).

(** *** Producer and consumer, interleaved *)

Record config : Type := {
  pending : list item;   (* what the producer has still to put *)
  channel : list item;   (* the queue: put at the back, get from the front *)
  consumer : sink
}.

Inductive task : Type := Producer | Consumer.

(** One step of the chosen task; [None] when that task cannot move (nothing
    left to put; the queue is empty or the loop has been left). *)
Definition step (t : task) (c : config) : option config :=
  match t with
  | Producer =>
      match pending c with
      | [] => None
      | x :: p => Some {| pending := p; channel := channel c ++ [x];
                          consumer := consumer c |}
      end
  | Consumer =>
      if running (consumer c) then
        match channel c with
        | [] => None
        | x :: q => Some {| pending := pending c; channel := q;
                            consumer := consume x (consumer c) |}
        end
      else None
  end.

Fixpoint schedule (ts : list task) (c : config) : option config :=
  match ts with
  | [] => Some c
  | t :: ts' =>
      match step t c with
      | Some c' => schedule ts' c'
      | None => None
      end
  end.

Definition start (items : list item) : config :=
  {| pending := items; channel := []; consumer := initial_sink |}.

(** No task can move. *)
Definition quiescent (c : config) : bool :=
  match step Producer c, step Consumer c with
  | None, None => true
  | _, _ => false
  end.

End movesensor.

(** ** Reference definitions used to state the properties *)

Module reference.
Import binary_parser models movesensor.

(** Positional little-endian value: byte [i] weighs [256 ^ i]. *)
Fixpoint le_reference (bs : list byte) : Z :=
  match bs with
  | [] => 0
  | b :: bs' => byte_val b + 256 * le_reference bs'
  end.

(** The packet layout: a payload of at least 18 bytes carries every field. *)
Definition well_formed (data : list byte) : bool := (18 <=? length data)%nat.

(** The reading a payload stands for, given the clock and the label read
    when it is decoded. *)
Definition decode (data : list byte) (now label : string) : Acceleration :=
  {| timestamp := le_uint (take 4 (drop 2 data));
     timestamp_local := now;
     ax := float32_of_bits (le_uint (take 4 (drop 6 data)));
     ay := float32_of_bits (le_uint (take 4 (drop 10 data)));
     az := float32_of_bits (le_uint (take 4 (drop 14 data)));
     fall_state := label |}.

(** The annotation after a run of events. *)
Fixpoint label_after (evs : list event) (a : annotation.AnnotateAccelerometerData)
  : annotation.AnnotateAccelerometerData :=
  match evs with
  | [] => a
  | Notification _ _ :: rest => label_after rest a
  | FallButton :: rest => label_after rest (annotation.fall_button_clicked a)
  | NotFallButton :: rest => label_after rest (annotation.not_fall_button_clicked a)
  end.

(** The readings a run of events produces, oldest first. *)
Fixpoint readings_of (evs : list event) (a : annotation.AnnotateAccelerometerData)
  : list Acceleration :=
  match evs with
  | [] => []
  | Notification data now :: rest =>
      (if well_formed data then [decode data now (annotation.fall_state a)] else [])
      ++ readings_of rest a
  | FallButton :: rest => readings_of rest (annotation.fall_button_clicked a)
  | NotFallButton :: rest => readings_of rest (annotation.not_fall_button_clicked a)
  end.

(** The exceptions of the handler tasks of a run of events. *)
Fixpoint failures_of (evs : list event) : list exn :=
  match evs with
  | [] => []
  | Notification data _ :: rest =>
      (if well_formed data then [] else [OutOfBounds]) ++ failures_of rest
  | _ :: rest => failures_of rest
  end.

(** The readings at the front of a queue, up to its first sentinel. *)
Fixpoint until_sentinel (q : list item) : list Acceleration :=
  match q with
  | Some d :: rest => d :: until_sentinel rest
  | _ => []
  end.

(** The state a session leaves when it served [evs] and put [tail] after
    the readings. *)
Definition served (s : state) (evs : list event) (calls : list request)
  (tail : list item) : state :=
  {| queue := queue s ++ map Some (readings_of evs (annotation s)) ++ tail;
     annotation := label_after evs (annotation s);
     gatt := gatt s ++ calls;
     emitted := emitted s ++ readings_of evs (annotation s);
     task_exceptions := task_exceptions s ++ failures_of evs |}.

(** The device has a name, and the name ends with the identifier. *)
Definition name_ends_with (suffix : string) (d : device) : Prop :=
  exists n p, name d = Some n /\ n = String.append p suffix.

(** The connection is opened and the stream is subscribed. *)
Definition subscribed (env : environment) (a : string) : bool :=
  accepts env (Connect a)
  && accepts env (StartNotify NOTIFY_CHARACTERISTIC_UUID)
  && accepts env (WriteGattChar WRITE_CHARACTERISTIC_UUID subscribe_command true).

(** The client calls of the teardown, for the connection status it finds. *)
Definition teardown_calls (env : environment) : list request :=
  if is_connected env
  then [WriteGattChar WRITE_CHARACTERISTIC_UUID unsubscribe_command true;
        StopNotify NOTIFY_CHARACTERISTIC_UUID]
  else [].

Definition teardown_accepted (env : environment) : bool :=
  forallb (accepts env) (teardown_calls env).

(** The run gets as far as [queue.put(None)]. *)
Definition sentinel_reached (env : environment) (end_of_serial : string) : bool :=
  match scan end_of_serial (discover env) with
  | None => true
  | Some a => subscribed env a && teardown_accepted env
  end.

(** What every configuration of an interleaved run satisfies: the readings
    taken so far, then the queue, then what is still to be put, make up the
    produced sequence; after the flush the first sentinel sits between the
    readings and the rest. *)
Definition consistent (items : list item) (c : config) : Prop :=
  if running (consumer c)
  then files (consumer c) = []
       /\ items = map Some (DATA_POINTS (consumer c)) ++ channel c ++ pending c
  else files (consumer c) = [head :: map as_csv_field (DATA_POINTS (consumer c))]
       /\ items = map Some (DATA_POINTS (consumer c)) ++ None :: channel c ++ pending c.

(** The notification payload of the specification's example. *)
Definition example_payload : list byte :=
  [x00; x00;              (* 0, 0 *)
   x0a; x00; x00; x00;    (* 10, 0, 0, 0 *)
   x00; x00; x80; x3f;    (* 0, 0, 128, 63 *)
   x00; x00; x00; x40;    (* 0, 0, 0, 64 *)
   x00; x00; x40; x40].   (* 0, 0, 64, 64 *)

(** Devices and environments used as concrete instances. *)
Definition sensor : device :=
  {| name := Some "Movesense 223430000278"; address := "0C:8C:DC:2E:41:77" |}.
Definition second_sensor : device :=
  {| name := Some "Spare 223430000278"; address := "0C:8C:DC:2E:41:99" |}.
Definition other_sensor : device :=
  {| name := Some "Movesense 223430000999"; address := "0C:8C:DC:2E:40:02" |}.
Definition unnamed : device := {| name := None; address := "5A:10:22:31:44:50" |}.
Definition blank : device := {| name := Some ""; address := "5A:10:22:31:44:51" |}.

(** A transport that accepts every call. *)
Definition cooperative (devices : list device) (evs : list event) (live : bool)
  : environment :=
  {| discover := devices; accepts := fun _ => true; incoming := evs;
     is_connected := live |}.

(** The sensor is there, but the connection cannot be opened. *)
Definition connect_refused : environment :=
  {| discover := [sensor];
     accepts := fun r => match r with Connect _ => false | _ => true end;
     incoming := []; is_connected := false |}.

(** The session streams, then the unsubscribe write is refused. *)
Definition unsubscribe_refused : environment :=
  {| discover := [sensor];
     accepts := fun r => match r with
                         | WriteGattChar _ (x02 :: _) _ => false
                         | _ => true
                         end;
     incoming := [Notification example_payload "2026-01-01 10:00:00.000001"];
     is_connected := true |}.

(** The session streams, then disabling the notifications is refused. *)
Definition stop_notify_refused : environment :=
  {| discover := [sensor];
     accepts := fun r => match r with StopNotify _ => false | _ => true end;
     incoming := [Notification example_payload "2026-01-01 10:00:00.000001"];
     is_connected := true |}.

End reference.

(** ** Further reference definitions: outcomes, calls, labels, sessions *)

Module observations.
Import binary_parser models movesensor reference.

(** The client calls of the [async with] body, in program order. *)
Definition body_calls (env : environment) : list request :=
  [StartNotify NOTIFY_CHARACTERISTIC_UUID;
   WriteGattChar WRITE_CHARACTERISTIC_UUID subscribe_command true]
  ++ teardown_calls env.

(** The first call of a list that the transport refuses. *)
Definition first_refused (env : environment) (calls : list request) : option request :=
  List.find (fun r => negb (accepts env r)) calls.

(** The calls of a list that are issued: all up to and including the first
    refused one. *)
Fixpoint until_refused (env : environment) (calls : list request) : list request :=
  match calls with
  | [] => []
  | r :: rest => r :: (if accepts env r then until_refused env rest else [])
  end.

(** How a session that found the device at [a] ends. *)
Definition outcome (env : environment) (a : string) : result unit :=
  if accepts env (Connect a) then
    if accepts env Disconnect then
      match first_refused env (body_calls env) with
      | Some r => Raise (BleakError r)
      | None => Ok tt
      end
    else Raise (BleakError Disconnect)
  else Raise (BleakError (Connect a)).

(** The client calls a session that found the device at [a] issues. *)
Definition issued (env : environment) (a : string) : list request :=
  Connect a ::
  (if accepts env (Connect a)
   then until_refused env (body_calls env) ++ [Disconnect]
   else []).

Definition is_body_call (r : request) : bool :=
  match r with
  | Connect _ | Disconnect => false
  | _ => true
  end.

(** The label of the last button pressed in a run of events, if any. *)
Fixpoint last_press (evs : list event) : option string :=
  match evs with
  | [] => None
  | ev :: rest =>
      match last_press rest with
      | Some l => Some l
      | None =>
          match ev with
          | FallButton => Some "Start"
          | NotFallButton => Some "Stop"
          | Notification _ _ => None
          end
      end
  end.


Definition is_label (l : string) : Prop := l = "default" \/ l = "Start" \/ l = "Stop".

(** The sink as a later call of [run_queue_consumer] in the same process
    finds it: the loop starts anew; the module-level [DATA_POINTS] and the
    files written are as the earlier call left them. *)
Definition next_session (k : sink) : sink :=
  {| DATA_POINTS := DATA_POINTS k; files := files k; running := true |}.

(** Progress measure of the interleaved run: a put or a get uses up one. *)
Definition work_left (c : config) : nat :=
  (2 * length (pending c) + length (channel c))%nat.

End observations.

(** * Properties *)

Import binary_parser models movesensor reference observations.

(** ** The packet view *)

Section PacketView.

Lemma byte_val_range (b : byte) : 0 <= byte_val b < 256.
Proof.
  unfold byte_val. pose proof (Byte.to_N_bounded b) as Hb. lia.
Qed.

Lemma lor_shiftl_8 (a x : Z) :
  0 <= a < 256 -> Z.lor a (Z.shiftl x 8) = a + 256 * x.
Proof.
  intros Ha.
  assert (Hland : Z.land a (Z.shiftl x 8) = 0).
  { apply Z.bits_inj'. intros n Hn.
    rewrite Z.land_spec, Z.bits_0.
    destruct (Z.lt_ge_cases n 8) as [Hlt|Hge].
    - rewrite Z.shiftl_spec_low by lia. apply andb_false_r.
    - assert (Ht : Z.testbit a n = false); [|now rewrite Ht].
      destruct (Z.eq_dec a 0) as [->|Hnz]; [apply Z.bits_0|].
      apply Z.bits_above_log2; [lia|].
      apply Z.log2_lt_pow2; [lia|].
      apply Z.lt_le_trans with (2 ^ 8); [simpl; lia|].
      apply Z.pow_le_mono_r; lia. }
  rewrite <- Z.lxor_lor by exact Hland.
  rewrite <- Z.add_nocarry_lxor by exact Hland.
  rewrite Z.shiftl_mul_pow2 by lia. change (2 ^ 8) with 256. lia.
Qed.

Lemma le_uint_reference (bs : list byte) : le_uint bs = le_reference bs.
Proof.
  induction bs as [|b bs IH]; simpl; [reflexivity|].
  rewrite lor_shiftl_8 by apply byte_val_range. now rewrite IH.
Qed.

Lemma le_reference_range (bs : list byte) :
  0 <= le_reference bs < 256 ^ Z.of_nat (length bs).
Proof.
  induction bs as [|b bs IH].
  - simpl. lia.
  - cbn [le_reference length]. rewrite Nat2Z.inj_succ, Z.pow_succ_r by lia.
    pose proof (byte_val_range b). lia.
Qed.

Lemma field_in_bounds (d : DataView) (offset width : nat) :
  (offset + width <= length (buffer d))%nat ->
  field d offset width = Ok (take width (drop offset (buffer d))).
Proof. intros H. unfold field. now rewrite decide_True. Qed.

Lemma field_out_of_bounds (d : DataView) (offset width : nat) :
  (length (buffer d) < offset + width)%nat ->
  field d offset width = Raise OutOfBounds.
Proof. intros H. unfold field. rewrite decide_False; [reflexivity|lia]. Qed.

Lemma take_4_drop (bs : list byte) (offset : nat) :
  (offset + 4 <= length bs)%nat ->
  exists b0 b1 b2 b3,
    bs !! offset = Some b0 /\ bs !! (offset + 1)%nat = Some b1 /\
    bs !! (offset + 2)%nat = Some b2 /\ bs !! (offset + 3)%nat = Some b3 /\
    take 4 (drop offset bs) = [b0; b1; b2; b3].
Proof.
  intros H.
  assert (Hl : (4 <= length (drop offset bs))%nat) by (rewrite length_drop; lia).
  destruct (drop offset bs) as [|b0 [|b1 [|b2 [|b3 tl]]]] eqn:E;
    simpl in Hl; try lia.
  exists b0, b1, b2, b3.
  rewrite <- (Nat.add_0_r offset) at 1.
  rewrite <- !lookup_drop, E. repeat split; reflexivity.
Qed.

End PacketView.

(** C5 -- Both accessors check [offset + 4] against the length of the
    buffer. Within bounds they return the little-endian value (resp. its
    binary32 reading) of the four bytes at positions [offset .. offset + 3],
    all of them inside the buffer; when the buffer is too short for
    [offset + 4] both fail with [OutOfBounds]. *)
Theorem accessors_bounds_checked (d : DataView) (offset : nat) :
  ((offset + 4 <= length (buffer d))%nat ->
   exists b0 b1 b2 b3,
     buffer d !! offset = Some b0 /\ buffer d !! (offset + 1)%nat = Some b1 /\
     buffer d !! (offset + 2)%nat = Some b2 /\ buffer d !! (offset + 3)%nat = Some b3 /\
     get_uint_32 d offset = Ok (le_reference [b0; b1; b2; b3]) /\
     get_float_32 d offset = Ok (float32_of_bits (le_reference [b0; b1; b2; b3])))
  /\
  ((length (buffer d) < offset + 4)%nat ->
   get_uint_32 d offset = Raise OutOfBounds /\
   get_float_32 d offset = Raise OutOfBounds).
Proof.
  split; intros H.
  - destruct (take_4_drop (buffer d) offset H)
      as (b0 & b1 & b2 & b3 & H0 & H1 & H2 & H3 & Hbytes).
    exists b0, b1, b2, b3.
    unfold get_uint_32, get_float_32.
    rewrite (field_in_bounds d offset 4 H), Hbytes, le_uint_reference.
    repeat split; assumption.
  - unfold get_uint_32, get_float_32.
    rewrite (field_out_of_bounds d offset 4 H). split; reflexivity.
Qed.

Lemma accessors_bounds_checked_witness :
  (exists b0 b1 b2 b3,
     example_payload !! 14%nat = Some b0 /\ example_payload !! 15%nat = Some b1 /\
     example_payload !! 16%nat = Some b2 /\ example_payload !! 17%nat = Some b3 /\
     get_uint_32 {| buffer := example_payload |} 14 = Ok (le_reference [b0; b1; b2; b3]) /\
     get_float_32 {| buffer := example_payload |} 14
       = Ok (float32_of_bits (le_reference [b0; b1; b2; b3])))
  /\ get_uint_32 {| buffer := example_payload |} 15 = Raise OutOfBounds
  /\ get_float_32 {| buffer := example_payload |} 15 = Raise OutOfBounds.
Proof.
  split.
  - apply (proj1 (accessors_bounds_checked {| buffer := example_payload |} 14)).
    simpl. lia.
  - apply (proj2 (accessors_bounds_checked {| buffer := example_payload |} 15)).
    simpl. lia.
Defined.

(** ** The notification handler *)

Section Handler.

Lemma well_formed_length (data : list byte) :
  well_formed data = true <-> (18 <= length data)%nat.
Proof. unfold well_formed. apply Nat.leb_le. Qed.

Lemma malformed_length (data : list byte) :
  well_formed data = false <-> (length data < 18)%nat.
Proof. unfold well_formed. apply Nat.leb_gt. Qed.

Lemma handler_well_formed (data : list byte) (now : string) (s : state) :
  well_formed data = true ->
  notification_handler data now s
  = (Ok tt,
     {| queue := queue s ++ [Some (decode data now (annotation.fall_state (annotation s)))];
        annotation := annotation s;
        gatt := gatt s;
        emitted := emitted s ++ [decode data now (annotation.fall_state (annotation s))];
        task_exceptions := task_exceptions s |}).
Proof.
  intros H%well_formed_length.
  unfold notification_handler, bind, lift, get_uint_32, get_float_32.
  rewrite !field_in_bounds by (simpl; lia).
  reflexivity.
Qed.

Lemma handler_malformed (data : list byte) (now : string) (s : state) :
  well_formed data = false ->
  notification_handler data now s = (Raise OutOfBounds, s).
Proof.
  intros H%malformed_length.
  unfold notification_handler, bind, lift, get_uint_32, get_float_32, field.
  cbn [buffer].
  repeat case_decide; try lia; reflexivity.
Qed.

End Handler.

(** C6 -- A payload of at least 18 bytes is decoded into a reading whose
    timestamp is the little-endian unsigned 32-bit value of bytes 2..5 and
    whose [ax], [ay], [az] are the binary32 readings of the little-endian
    words at offsets 6, 10 and 14; the reading is emitted and queued. The
    payload [0,0, 10,0,0,0, 0,0,128,63, 0,0,0,64, 0,0,64,64] gives
    timestamp 10 and accelerations 1, 2 and 3. *)
Theorem handler_decodes_packet :
  (forall (data : list byte) (now : string) (s : state),
     (18 <= length data)%nat ->
     exists r : Acceleration,
       notification_handler data now s
       = (Ok tt,
          {| queue := queue s ++ [Some r]; annotation := annotation s;
             gatt := gatt s; emitted := emitted s ++ [r];
             task_exceptions := task_exceptions s |})
       /\ timestamp r = le_reference (take 4 (drop 2 data))
       /\ 0 <= timestamp r < 2 ^ 32
       /\ ax r = float32_of_bits (le_reference (take 4 (drop 6 data)))
       /\ ay r = float32_of_bits (le_reference (take 4 (drop 10 data)))
       /\ az r = float32_of_bits (le_reference (take 4 (drop 14 data))))
  /\
  (forall (now : string) (s : state),
     exists r : Acceleration,
       fst (notification_handler example_payload now s) = Ok tt
       /\ queue (snd (notification_handler example_payload now s)) = queue s ++ [Some r]
       /\ timestamp r = 10
       /\ Q_of_float32 (ax r) = Some (Qmake 1 1)
       /\ Q_of_float32 (ay r) = Some (Qmake 2 1)
       /\ Q_of_float32 (az r) = Some (Qmake 3 1)).
Proof.
  split.
  - intros data now s H.
    exists (decode data now (annotation.fall_state (annotation s))).
    split; [apply handler_well_formed, well_formed_length, H|].
    cbn [decode timestamp ax ay az]. rewrite !le_uint_reference.
    repeat split; try reflexivity.
    + apply le_reference_range.
    + pose proof (le_reference_range (take 4 (drop 2 data))) as Hr.
      rewrite length_take, length_drop in Hr.
      replace (4 `min` (length data - 2))%nat with 4%nat in Hr by lia.
      change (256 ^ Z.of_nat 4) with (2 ^ 32) in Hr. apply Hr.
  - intros now s.
    exists (decode example_payload now (annotation.fall_state (annotation s))).
    rewrite handler_well_formed by reflexivity.
    repeat split; reflexivity.
Qed.

Lemma handler_decodes_packet_witness :
  exists r : Acceleration,
    notification_handler example_payload "2026-01-01 00:00:00" initial_state
    = (Ok tt,
       {| queue := [Some r]; annotation := annotation.init;
          gatt := []; emitted := [r]; task_exceptions := [] |})
    /\ timestamp r = 10.
Proof.
  destruct (proj1 handler_decodes_packet example_payload "2026-01-01 00:00:00"
              initial_state) as (r & Hrun & Hts & _).
  - simpl. lia.
  - exists r. split; [exact Hrun|]. rewrite Hts. reflexivity.
Defined.

(** ** Discovery *)

Section Discovery.

Lemma string_length_append (p s : string) :
  String.length (String.append p s) = (String.length p + String.length s)%nat.
Proof. induction p as [|c p IH]; simpl; [reflexivity|now rewrite IH]. Qed.

Lemma substring_whole (s : string) : substring 0 (String.length s) s = s.
Proof. induction s as [|c s IH]; simpl; [reflexivity|now rewrite IH]. Qed.

Lemma substring_after_prefix (p suffix : string) :
  substring (String.length p) (String.length suffix) (String.append p suffix) = suffix.
Proof. induction p as [|c p IH]; simpl; [apply substring_whole|exact IH]. Qed.

Lemma substring_split (s : string) (n : nat) :
  (n <= String.length s)%nat ->
  s = String.append (substring 0 n s) (substring n (String.length s - n) s).
Proof.
  revert s; induction n as [|n IH]; intros s Hn.
  - rewrite Nat.sub_0_r, substring_whole. destruct s; reflexivity.
  - destruct s as [|c s]; simpl in Hn; [lia|].
    change (String c s
            = String c (String.append (substring 0 n s)
                                      (substring n (String.length s - n) s))).
    f_equal. apply IH. lia.
Qed.

(** [endswith] is the suffix relation on strings. *)
Lemma endswith_spec (s suffix : string) :
  endswith s suffix = true <-> exists p, s = String.append p suffix.
Proof.
  unfold endswith. rewrite andb_true_iff, Nat.leb_le, String.eqb_eq. split.
  - intros [Hlen Hsub].
    exists (substring 0 (String.length s - String.length suffix) s).
    pose proof (substring_split s (String.length s - String.length suffix)) as Hs.
    replace (String.length s - (String.length s - String.length suffix))%nat
      with (String.length suffix) in Hs by lia.
    rewrite Hsub in Hs. apply Hs. lia.
  - intros [p ->]. rewrite string_length_append. split; [lia|].
    replace (String.length p + String.length suffix - String.length suffix)%nat
      with (String.length p) by lia.
    apply substring_after_prefix.
Qed.

Lemma name_test_spec (end_of_serial : string) (d : device) :
  name_test end_of_serial d = true
  <-> exists n, name d = Some n /\ n <> "" /\ endswith n end_of_serial = true.
Proof.
  unfold name_test. destruct (name d) as [[|c n]|]; simpl.
  - split; [discriminate|]. intros (n & [= <-] & Hne & _). now elim Hne.
  - split.
    + intros H. exists (String c n). repeat split; [discriminate|exact H].
    + intros (n' & [= <-] & _ & H). exact H.
  - split; [discriminate|]. intros (n & Hn & _). discriminate.
Qed.

Lemma name_test_nameless (end_of_serial : string) (d : device) :
  truthy (name d) = false -> name_test end_of_serial d = false.
Proof. unfold name_test. destruct (name d) as [[|c n]|]; simpl; congruence. Qed.

(** The loop returns the address of the first device that passes the test. *)
Lemma scan_Some (end_of_serial : string) (devices : list device) (a : string) :
  scan end_of_serial devices = Some a
  <-> exists pre d post,
        devices = pre ++ d :: post /\ address d = a /\
        name_test end_of_serial d = true /\
        Forall (fun d' => name_test end_of_serial d' = false) pre.
Proof.
  induction devices as [|d0 devices IH]; simpl.
  - split; [discriminate|]. intros (pre & d & post & H & _). now destruct pre.
  - destruct (name_test end_of_serial d0) eqn:E.
    + split.
      * intros [= <-]. exists [], d0, devices. repeat split; auto.
      * intros (pre & d & post & H & Ha & Ht & Hpre).
        destruct pre as [|d1 pre]; simplify_eq/=; [reflexivity|].
        apply Forall_cons in Hpre as [Hd1 _]. congruence.
    + rewrite IH. split.
      * intros (pre & d & post & -> & Ha & Ht & Hpre).
        exists (d0 :: pre), d, post. repeat split; auto.
      * intros (pre & d & post & H & Ha & Ht & Hpre).
        destruct pre as [|d1 pre]; simplify_eq/=; [congruence|].
        apply Forall_cons in Hpre as [_ Hpre].
        exists pre, d, post. repeat split; auto.
Qed.

Lemma scan_None (end_of_serial : string) (devices : list device) :
  scan end_of_serial devices = None
  <-> Forall (fun d => name_test end_of_serial d = false) devices.
Proof.
  induction devices as [|d0 devices IH]; simpl.
  - split; auto.
  - destruct (name_test end_of_serial d0) eqn:E.
    + split; [discriminate|]. intros [H _]%Forall_cons. congruence.
    + rewrite IH. split; [intros H; constructor; assumption|].
      now intros [_ H]%Forall_cons.
Qed.

(** The session when discovery finds nothing: the sentinel and nothing else. *)
Lemma run_not_found (env : environment) (end_of_serial : string) (s : state) :
  scan end_of_serial (discover env) = None ->
  run_ble_client env end_of_serial s = (Ok tt, served s [] [] [None]).
Proof.
  intros H. unfold run_ble_client. rewrite H.
  unfold queue_put, served. simpl. now rewrite !app_nil_r.
Qed.

End Discovery.

(** ** The session *)

Section Session.

Lemma readings_of_app (e1 e2 : list event) (a : annotation.AnnotateAccelerometerData) :
  readings_of (e1 ++ e2) a = readings_of e1 a ++ readings_of e2 (label_after e1 a).
Proof.
  revert a; induction e1 as [|[data now| |] e1 IH]; intros a; simpl; auto.
  now rewrite IH, app_assoc.
Qed.

Lemma label_after_app (e1 e2 : list event) (a : annotation.AnnotateAccelerometerData) :
  label_after (e1 ++ e2) a = label_after e2 (label_after e1 a).
Proof. revert a; induction e1 as [|[data now| |] e1 IH]; intros a; simpl; auto. Qed.

Lemma failures_of_app (e1 e2 : list event) :
  failures_of (e1 ++ e2) = failures_of e1 ++ failures_of e2.
Proof.
  induction e1 as [|[data now| |] e1 IH]; simpl; auto.
  now rewrite IH, app_assoc.
Qed.

Lemma served_nil (s : state) : served s [] [] [] = s.
Proof. destruct s. unfold served. simpl. now rewrite !app_nil_r. Qed.

Lemma served_events (s : state) (e1 e2 : list event) (c1 c2 : list request)
  (tail : list item) :
  served (served s e1 c1 []) e2 c2 tail = served s (e1 ++ e2) (c1 ++ c2) tail.
Proof.
  unfold served. cbn [queue annotation gatt emitted task_exceptions].
  rewrite readings_of_app, label_after_app, failures_of_app, map_app.
  rewrite !app_nil_r, <- !app_assoc. reflexivity.
Qed.

Lemma served_calls (s : state) (evs : list event) (c1 c2 : list request)
  (t1 t2 : list item) :
  served (served s evs c1 t1) [] c2 t2 = served s evs (c1 ++ c2) (t1 ++ t2).
Proof.
  unfold served. cbn [queue annotation gatt emitted task_exceptions
                      readings_of label_after failures_of map].
  rewrite !app_nil_r, <- !app_assoc. reflexivity.
Qed.

Lemma deliver_served (ev : event) (s : state) :
  deliver ev s = (Ok tt, served s [ev] [] []).
Proof.
  destruct s as [q a g em te].
  destruct ev as [data now| |]; unfold deliver, served; simpl.
  - destruct (well_formed data) eqn:E.
    + rewrite handler_well_formed by exact E. simpl. now rewrite !app_nil_r.
    + rewrite handler_malformed by exact E. simpl. now rewrite !app_nil_r.
  - now rewrite !app_nil_r.
  - now rewrite !app_nil_r.
Qed.

(** Waiting for the disconnect signal never raises: it serves every event. *)
Lemma wait_disconnected_served (evs : list event) (s : state) :
  wait_disconnected evs s = (Ok tt, served s evs [] []).
Proof.
  revert s; induction evs as [|ev evs IH]; intros s.
  - simpl. unfold ret. now rewrite served_nil.
  - cbn [wait_disconnected]. unfold bind. rewrite deliver_served, IH.
    now rewrite served_events.
Qed.

Lemma call_accepted (env : environment) (r : request) (s : state) :
  accepts env r = true -> call env r s = (Ok tt, served s [] [r] []).
Proof.
  intros H. unfold call, served. rewrite H. simpl. now rewrite !app_nil_r.
Qed.

Lemma call_refused (env : environment) (r : request) (s : state) :
  accepts env r = false -> call env r s = (Raise (BleakError r), served s [] [r] []).
Proof.
  intros H. unfold call, served. rewrite H. simpl. now rewrite !app_nil_r.
Qed.

Lemma queue_put_served (x : item) (s : state) :
  queue_put x s = (Ok tt, served s [] [] [x]).
Proof. unfold queue_put, served. simpl. now rewrite !app_nil_r. Qed.

Lemma ret_served (s : state) : ret tt s = (Ok tt, served s [] [] []).
Proof. unfold ret. now rewrite served_nil. Qed.

End Session.

(** Runs a session whose transport answers are known: every step is
    rewritten to its [served] form and the forms are merged. *)
Ltac run_session :=
  unfold run_ble_client, with_client, bind;
  repeat first
    [ match goal with H : scan _ _ = _ |- _ => rewrite H end
    | match goal with H : is_connected _ = _ |- _ => rewrite H end
    | rewrite wait_disconnected_served
    | rewrite queue_put_served
    | rewrite ret_served
    | rewrite call_accepted by assumption
    | rewrite call_refused by assumption
    | rewrite served_calls
    | rewrite served_events
    | rewrite app_nil_r
    | progress cbn [app] ].

(** Replaces the transport's answers by what the context says of them. *)
Ltac known_answers :=
  unfold subscribed, teardown_accepted, teardown_calls;
  repeat first
    [ progress cbn [forallb andb]
    | match goal with
      | H : accepts _ _ = _ |- _ => rewrite H
      | H : is_connected _ = _ |- _ => rewrite H
      | H : scan _ _ = _ |- _ => rewrite H
      end ].

Section SessionRuns.

Variable env : environment.
Variable end_of_serial : string.

(** A session that gets through the subscription and the teardown: every
    event is served, the sentinel is put once, last, and the connection is
    released. Only the release can still raise. *)
Lemma run_complete (a : string) (s : state) :
  scan end_of_serial (discover env) = Some a ->
  subscribed env a = true ->
  teardown_accepted env = true ->
  run_ble_client env end_of_serial s
  = (if accepts env Disconnect then Ok tt else Raise (BleakError Disconnect),
     served s (incoming env)
       ([Connect a; StartNotify NOTIFY_CHARACTERISTIC_UUID;
         WriteGattChar WRITE_CHARACTERISTIC_UUID subscribe_command true]
        ++ teardown_calls env ++ [Disconnect])
       [None]).
Proof.
  unfold subscribed, teardown_accepted, teardown_calls.
  intros Hscan [[Hc Hn]%andb_true_iff Hw]%andb_true_iff Ht.
  destruct (is_connected env) eqn:Hlive;
    [simpl in Ht; apply andb_true_iff in Ht as [Hu [Hs _]%andb_true_iff]|];
    destruct (accepts env Disconnect) eqn:Hx; run_session; reflexivity.
Qed.

(** Every run that found a device, whatever the transport answers: it
    starts with the connect; the events are served exactly when the
    subscription went through; the sentinel is put exactly when, in addition,
    the teardown calls went through. *)
Lemma run_found (a : string) (s : state) :
  scan end_of_serial (discover env) = Some a ->
  exists (r : result unit) (calls : list request),
    run_ble_client env end_of_serial s
    = (r, served s (if subscribed env a then incoming env else [])
            (Connect a :: calls)
            (if subscribed env a && teardown_accepted env then [None] else [])).
Proof.
  intros Hscan.
  destruct (accepts env (Connect a)) eqn:Hc,
           (accepts env (StartNotify NOTIFY_CHARACTERISTIC_UUID)) eqn:Hn,
           (accepts env (WriteGattChar WRITE_CHARACTERISTIC_UUID subscribe_command true)) eqn:Hw,
           (is_connected env) eqn:Hlive,
           (accepts env (WriteGattChar WRITE_CHARACTERISTIC_UUID unsubscribe_command true)) eqn:Hu,
           (accepts env (StopNotify NOTIFY_CHARACTERISTIC_UUID)) eqn:Hs,
           (accepts env Disconnect) eqn:Hx;
    run_session; do 2 eexists; known_answers; reflexivity.
Qed.

(** The queue a session leaves: readings and, exactly when the run gets as
    far as the put, the sentinel after them. *)
Lemma run_queue (s : state) :
  exists rs : list Acceleration,
    queue (snd (run_ble_client env end_of_serial s))
    = queue s ++ map Some rs ++ (if sentinel_reached env end_of_serial then [None] else []).
Proof.
  unfold sentinel_reached.
  destruct (scan end_of_serial (discover env)) as [a|] eqn:Hscan.
  - destruct (run_found a s Hscan) as (r & calls & ->). eexists. reflexivity.
  - rewrite (run_not_found env end_of_serial s Hscan). exists []. reflexivity.
Qed.

End SessionRuns.

(** ** The sink *)

Section Sink.

Lemma until_sentinel_app (rs : list Acceleration) (t : list item) :
  until_sentinel (map Some rs ++ t) = rs ++ until_sentinel t.
Proof. induction rs as [|r rs IH]; simpl; [reflexivity|now rewrite IH]. Qed.

Lemma first_sentinel_unique (a b : list Acceleration) (x y : list item) :
  map Some a ++ None :: x = map Some b ++ None :: y -> a = b /\ x = y.
Proof.
  intros H.
  assert (Hab : a = b).
  { apply (f_equal until_sentinel) in H.
    rewrite !until_sentinel_app in H. simpl in H.
    now rewrite !app_nil_r in H. }
  subst b. split; [reflexivity|].
  apply app_inv_head in H. congruence.
Qed.

Lemma no_sentinel_among_readings (rs : list Acceleration) : ~ In None (map Some rs).
Proof. induction rs as [|r rs IH]; simpl; [tauto|]. intros [H|H]; [discriminate|tauto]. Qed.

(** The consumer on a queue that holds a sentinel: the readings before the
    first sentinel are appended in order, one file is written, the loop is
    left, and the rest stays on the queue. *)
Lemma run_queue_consumer_sentinel (rs : list Acceleration) (rest : list item) (k : sink) :
  running k = true ->
  run_queue_consumer (map Some rs ++ None :: rest) k
  = ({| DATA_POINTS := DATA_POINTS k ++ rs;
        files := files k ++ [head :: map as_csv_field (DATA_POINTS k ++ rs)];
        running := false |}, rest).
Proof.
  revert k; induction rs as [|r rs IH]; intros k Hk.
  - simpl. now rewrite app_nil_r.
  - cbn [map app run_queue_consumer consume running]. rewrite Hk.
    rewrite IH by reflexivity. cbn [DATA_POINTS files].
    now rewrite <- !app_assoc.
Qed.

(** The consumer on a queue without sentinel: it appends everything, writes
    nothing and is left waiting. *)
Lemma run_queue_consumer_waiting (rs : list Acceleration) (k : sink) :
  running k = true ->
  run_queue_consumer (map Some rs) k
  = ({| DATA_POINTS := DATA_POINTS k ++ rs; files := files k; running := true |}, []).
Proof.
  revert k; induction rs as [|r rs IH]; intros k Hk.
  - destruct k as [dp fs run]. simpl in *. subst run. now rewrite app_nil_r.
  - cbn [map run_queue_consumer consume running]. rewrite Hk.
    rewrite IH by reflexivity. cbn [DATA_POINTS files].
    now rewrite <- !app_assoc.
Qed.

Lemma consistent_start (items : list item) : consistent items (start items).
Proof. unfold consistent, start. simpl. auto. Qed.

Lemma consistent_step (items : list item) (t : task) (c c' : config) :
  consistent items c -> step t c = Some c' -> consistent items c'.
Proof.
  unfold consistent, step. destruct c as [p ch [dp fs run]]; cbn.
  destruct t.
  - destruct p as [|x p]; [discriminate|]. intros H [= <-]; cbn.
    rewrite <- app_assoc. exact H.
  - destruct run; [|discriminate].
    destruct ch as [|[d|] ch]; [discriminate| |]; intros [-> ->] [= <-]; cbn.
    + split; [reflexivity|]. rewrite map_app, <- app_assoc. reflexivity.
    + split; reflexivity.
Qed.

Lemma consistent_schedule (items : list item) (ts : list task) (c c' : config) :
  consistent items c -> schedule ts c = Some c' -> consistent items c'.
Proof.
  revert c; induction ts as [|t ts IH]; intros c Hc; simpl.
  - intros [= <-]. exact Hc.
  - destruct (step t c) as [c1|] eqn:E; [|discriminate].
    apply IH. eapply consistent_step; eassumption.
Qed.

Lemma quiescent_spec (c : config) :
  quiescent c = true
  <-> pending c = [] /\ (running (consumer c) = false \/ channel c = []).
Proof.
  unfold quiescent, step.
  destruct (pending c), (running (consumer c)), (channel c); simpl;
    intuition congruence.
Qed.

(** The interleaved run and the consumer over the whole sequence agree once
    nothing can move any more. *)
Lemma schedule_quiescent (items : list item) (ts : list task) (c : config) :
  schedule ts (start items) = Some c ->
  quiescent c = true ->
  (consumer c, channel c) = run_queue_consumer items initial_sink.
Proof.
  intros Hrun [Hp Hq]%quiescent_spec.
  pose proof (consistent_schedule items ts _ _ (consistent_start items) Hrun) as Hc.
  unfold consistent in Hc. destruct c as [p ch [dp fs run]]; cbn in *. subst p.
  destruct run.
  - destruct Hq as [Hq|Hq]; [discriminate|]. destruct Hc as [-> ->]. subst ch.
    rewrite !app_nil_r. now rewrite run_queue_consumer_waiting.
  - destruct Hc as [-> ->]. rewrite app_nil_r.
    now rewrite run_queue_consumer_sentinel.
Qed.

(** Some schedule always reaches the point where nothing can move: the
    producer puts everything, then the consumer takes what it can. *)
Lemma consumer_drains (ch : list item) (k : sink) :
  exists ts c,
    schedule ts {| pending := []; channel := ch; consumer := k |} = Some c
    /\ quiescent c = true.
Proof.
  revert k; induction ch as [|x ch IH]; intros k.
  - exists [], {| pending := []; channel := []; consumer := k |}.
    split; [reflexivity|]. apply quiescent_spec. auto.
  - destruct (running k) eqn:Hk.
    + destruct (IH (consume x k)) as (ts & c & Hrun & Hq).
      exists (Consumer :: ts), c. split; [|exact Hq].
      cbn [schedule step consumer channel pending]. rewrite Hk. exact Hrun.
    + exists [], {| pending := []; channel := x :: ch; consumer := k |}.
      split; [reflexivity|]. apply quiescent_spec. auto.
Qed.

Lemma producer_puts_all (p ch : list item) (k : sink) :
  schedule (map (fun _ => Producer) p)
    {| pending := p; channel := ch; consumer := k |}
  = Some {| pending := []; channel := ch ++ p; consumer := k |}.
Proof.
  revert ch; induction p as [|x p IH]; intros ch; simpl.
  - now rewrite app_nil_r.
  - rewrite IH, <- app_assoc. reflexivity.
Qed.

Lemma schedule_app (ts1 ts2 : list task) (c c1 : config) :
  schedule ts1 c = Some c1 -> schedule (ts1 ++ ts2) c = schedule ts2 c1.
Proof.
  revert c; induction ts1 as [|t ts1 IH]; intros c; simpl.
  - now intros [= <-].
  - destruct (step t c); [apply IH|discriminate].
Qed.

Lemma some_schedule_quiesces (items : list item) :
  exists ts c, schedule ts (start items) = Some c /\ quiescent c = true.
Proof.
  destruct (consumer_drains items initial_sink) as (ts & c & Hrun & Hq).
  exists (map (fun _ => Producer) items ++ ts), c. split; [|exact Hq].
  unfold start. erewrite schedule_app by apply producer_puts_all. exact Hrun.
Qed.

End Sink.

(** ** The pipeline: session and sink together *)

(** C1, counterexample -- A GATT connect failure leaves the session by an
    exception: nothing is put on the queue and the sink writes no file. *)
Lemma connect_failure_loses_sentinel :
  ~ (forall (env : environment) (end_of_serial : string) r s k,
       main env end_of_serial = (r, s, k) ->
       In None (queue s) /\ exists f, files k = [f]).
Proof.
  intros H.
  destruct (H connect_refused SENSOR_ID _ _ _ eq_refl) as [HIn _].
  vm_compute in HIn. exact HIn.
Qed.

(** C1 (amended) -- The sentinel is put, and the sink then flushes exactly
    one file holding the header and the rows of the readings served, exactly
    in the runs that get as far as the put: discovery found no device, or
    the connect, the subscription and the teardown calls were all accepted.
    A run without matching device returns normally and its file holds the
    header alone. A refused connect leaves the session by its exception with
    an empty queue, and no file is written. *)
Theorem sentinel_and_flush (env : environment) (end_of_serial : string)
  (r : result unit) (s : state) (k : sink) :
  main env end_of_serial = (r, s, k) ->
  exists rs : list Acceleration,
    queue s = map Some rs ++ (if sentinel_reached env end_of_serial then [None] else [])
    /\ files k = (if sentinel_reached env end_of_serial
                 then [head :: map as_csv_field rs] else [])
    /\ (scan end_of_serial (discover env) = None ->
        r = Ok tt /\ queue s = [None] /\ files k = [[head]])
    /\ (forall a, scan end_of_serial (discover env) = Some a ->
                  accepts env (Connect a) = false ->
        r = Raise (BleakError (Connect a)) /\ queue s = [] /\ files k = []).
Proof.
  unfold main.
  destruct (run_ble_client env end_of_serial initial_state) as [r0 s0] eqn:Hrun.
  intros [= <- <- <-].
  destruct (run_queue env end_of_serial initial_state) as [rs Hq].
  rewrite Hrun in Hq. cbn [snd initial_state queue app] in Hq.
  exists rs. split; [exact Hq|].
  assert (Hfiles : files (fst (run_queue_consumer (queue s0) initial_sink))
                   = if sentinel_reached env end_of_serial
                     then [head :: map as_csv_field rs] else []).
  { rewrite Hq. destruct (sentinel_reached env end_of_serial).
    - now rewrite run_queue_consumer_sentinel.
    - now rewrite app_nil_r, run_queue_consumer_waiting. }
  split; [exact Hfiles|]. split.
  - intros Hscan. rewrite Hfiles, Hq. unfold sentinel_reached. rewrite Hscan.
    rewrite (run_not_found env end_of_serial initial_state Hscan) in Hrun.
    injection Hrun as <- <-.
    assert (rs = []) as ->.
    { unfold sentinel_reached in Hq. rewrite Hscan in Hq. cbn in Hq.
      destruct rs; [reflexivity|discriminate]. }
    repeat split; reflexivity.
  - intros a Hscan Hc. rewrite Hfiles, Hq.
    assert (Hno : sentinel_reached env end_of_serial = false).
    { unfold sentinel_reached, subscribed. now rewrite Hscan, Hc. }
    rewrite Hno.
    revert Hrun. run_session. intros [= <- <-].
    assert (rs = []) as ->.
    { rewrite Hno in Hq. cbn in Hq. rewrite app_nil_r in Hq.
      destruct rs; [reflexivity|discriminate]. }
    repeat split; reflexivity.
Qed.

Lemma sentinel_and_flush_witness :
  exists rs : list Acceleration,
    queue (snd (fst (main (cooperative [unnamed; other_sensor] [] false) SENSOR_ID)))
    = map Some rs ++ [None]
    /\ files (snd (main (cooperative [unnamed; other_sensor] [] false) SENSOR_ID))
       = [[head]].
Proof.
  destruct (sentinel_and_flush (cooperative [unnamed; other_sensor] [] false)
              SENSOR_ID _ _ _ eq_refl) as (rs & Hq & _ & Hnone & _).
  exists rs. split; [exact Hq|]. apply Hnone. reflexivity.
Defined.

(** ** Teardown *)

(** C3, counterexample -- A refused unsubscribe write is fatal: the session
    was subscribed and the connection is live, yet no sentinel is put. *)
Lemma unsubscribe_failure_is_fatal :
  ~ (forall (env : environment) (end_of_serial a : string),
       scan end_of_serial (discover env) = Some a ->
       subscribed env a = true ->
       is_connected env = true ->
       In None (queue (snd (run_ble_client env end_of_serial initial_state)))).
Proof.
  intros H.
  specialize (H unsubscribe_refused SENSOR_ID (address sensor) eq_refl eq_refl eq_refl).
  vm_compute in H. destruct H as [H|[]]. discriminate.
Qed.

(** C3 (amended) -- Teardown of a subscribed session, after the events were
    served. The unsubscribe command is the two bytes 2 and 99. When the
    connection is down, neither teardown call is made and the sentinel is
    put. When it is live, the command is written with acknowledgment, then
    the notifications are disabled, and when both calls are accepted the
    sentinel is put. A refused write raises: the notifications are not
    disabled and no sentinel is put. A refused disable raises as well, and
    no sentinel is put. In every case the connection is released last. *)
Theorem teardown_steps (env : environment) (end_of_serial a : string) (s : state) :
  scan end_of_serial (discover env) = Some a ->
  subscribed env a = true ->
  let unsubscribe := WriteGattChar WRITE_CHARACTERISTIC_UUID unsubscribe_command true in
  let stop := StopNotify NOTIFY_CHARACTERISTIC_UUID in
  let opening := [Connect a; StartNotify NOTIFY_CHARACTERISTIC_UUID;
                  WriteGattChar WRITE_CHARACTERISTIC_UUID subscribe_command true] in
  let run := run_ble_client env end_of_serial s in
  map byte_val unsubscribe_command = [2; 99]
  /\ (is_connected env = false ->
      snd run = served s (incoming env) (opening ++ [Disconnect]) [None])
  /\ (is_connected env = true ->
      accepts env unsubscribe = true -> accepts env stop = true ->
      snd run = served s (incoming env) (opening ++ [unsubscribe; stop; Disconnect]) [None])
  /\ (is_connected env = true ->
      accepts env unsubscribe = false ->
      (exists e, fst run = Raise e)
      /\ snd run = served s (incoming env) (opening ++ [unsubscribe; Disconnect]) [])
  /\ (is_connected env = true ->
      accepts env unsubscribe = true -> accepts env stop = false ->
      (exists e, fst run = Raise e)
      /\ snd run = served s (incoming env) (opening ++ [unsubscribe; stop; Disconnect]) []).
Proof.
  unfold subscribed.
  intros Hscan [[Hc Hn]%andb_true_iff Hw]%andb_true_iff. cbv zeta.
  split; [reflexivity|].
  repeat split; intros;
    destruct (accepts env Disconnect) eqn:Hx; run_session; eauto.
Qed.

Lemma teardown_steps_witness :
  (exists e, fst (run_ble_client unsubscribe_refused SENSOR_ID initial_state) = Raise e)
  /\ queue (snd (run_ble_client unsubscribe_refused SENSOR_ID initial_state))
     = [Some (decode example_payload "2026-01-01 10:00:00.000001" "default")]
  /\ (exists e, fst (run_ble_client stop_notify_refused SENSOR_ID initial_state) = Raise e)
  /\ queue (snd (run_ble_client (cooperative [sensor] [] true) SENSOR_ID initial_state))
     = [None]
  /\ queue (snd (run_ble_client (cooperative [sensor] [] false) SENSOR_ID initial_state))
     = [None].
Proof.
  pose proof (teardown_steps unsubscribe_refused SENSOR_ID (address sensor)
                initial_state eq_refl eq_refl) as (_ & _ & _ & Hu & _).
  pose proof (teardown_steps stop_notify_refused SENSOR_ID (address sensor)
                initial_state eq_refl eq_refl) as (_ & _ & _ & _ & Hs).
  pose proof (teardown_steps (cooperative [sensor] [] true) SENSOR_ID (address sensor)
                initial_state eq_refl eq_refl) as (_ & _ & Hlive & _).
  pose proof (teardown_steps (cooperative [sensor] [] false) SENSOR_ID (address sensor)
                initial_state eq_refl eq_refl) as (_ & Hdown & _).
  destruct (Hu eq_refl eq_refl) as [Hraise Hstate].
  destruct (Hs eq_refl eq_refl eq_refl) as [Hraise' _].
  specialize (Hlive eq_refl eq_refl eq_refl). specialize (Hdown eq_refl).
  split; [exact Hraise|].
  split; [rewrite Hstate; reflexivity|].
  split; [exact Hraise'|].
  split; [rewrite Hlive; reflexivity|].
  rewrite Hdown. reflexivity.
Defined.

(** ** The notification loop *)

Section NotificationLoop.

Lemma readings_of_malformed (evs1 evs2 : list event) (data : list byte) (now : string)
  (a : annotation.AnnotateAccelerometerData) :
  well_formed data = false ->
  readings_of (evs1 ++ Notification data now :: evs2) a = readings_of (evs1 ++ evs2) a.
Proof.
  intros H. rewrite !readings_of_app. cbn [readings_of]. now rewrite H.
Qed.

Lemma label_after_notification (evs1 evs2 : list event) (data : list byte) (now : string)
  (a : annotation.AnnotateAccelerometerData) :
  label_after (evs1 ++ Notification data now :: evs2) a = label_after (evs1 ++ evs2) a.
Proof. now rewrite !label_after_app. Qed.

Lemma failures_of_malformed (evs1 evs2 : list event) (data : list byte) (now : string) :
  well_formed data = false ->
  failures_of (evs1 ++ Notification data now :: evs2)
  = failures_of evs1 ++ OutOfBounds :: failures_of evs2.
Proof.
  intros H. rewrite failures_of_app. cbn [failures_of]. now rewrite H.
Qed.

End NotificationLoop.

(** C2 -- A payload too short for the packet layout makes the handler raise
    before it builds a reading: nothing is emitted or queued for it. The
    exception ends that handler task only and is kept as its diagnostic; the
    wait goes on without raising, the events after it are served as they are
    without it, and a session that the transport lets through still ends with
    the readings of the other notifications followed by the sentinel. *)
Theorem malformed_notification_dropped (evs1 evs2 : list event) (data : list byte)
  (now : string) (s : state) :
  (length data < 18)%nat ->
  let loop := wait_disconnected (evs1 ++ Notification data now :: evs2) s in
  let without := wait_disconnected (evs1 ++ evs2) s in
  let s1 := snd (wait_disconnected evs1 s) in
  notification_handler data now s1 = (Raise OutOfBounds, s1)
  /\ deliver (Notification data now) s1 = (Ok tt, record_task_exception OutOfBounds s1)
  /\ loop = wait_disconnected evs2 (record_task_exception OutOfBounds s1)
  /\ fst loop = Ok tt
  /\ queue (snd loop) = queue (snd without)
  /\ emitted (snd loop) = emitted (snd without)
  /\ annotation (snd loop) = annotation (snd without)
  /\ task_exceptions (snd loop)
     = task_exceptions s ++ failures_of evs1 ++ OutOfBounds :: failures_of evs2
  /\ (forall (env : environment) (end_of_serial a : string),
        incoming env = evs1 ++ Notification data now :: evs2 ->
        scan end_of_serial (discover env) = Some a ->
        subscribed env a = true ->
        teardown_accepted env = true ->
        fst (run_ble_client env end_of_serial s)
        = (if accepts env Disconnect then Ok tt else Raise (BleakError Disconnect))
        /\ queue (snd (run_ble_client env end_of_serial s))
           = queue s ++ map Some (readings_of (evs1 ++ evs2) (annotation s)) ++ [None]).
Proof.
  intros Hlen%malformed_length. cbv zeta.
  assert (Hh : forall s1, notification_handler data now s1 = (Raise OutOfBounds, s1))
    by (intros; now apply handler_malformed).
  assert (Hd : forall s1, deliver (Notification data now) s1
                          = (Ok tt, record_task_exception OutOfBounds s1))
    by (intros; unfold deliver; now rewrite Hh).
  split; [apply Hh|]. split; [apply Hd|]. split.
  { generalize s. induction evs1 as [|ev evs1 IH]; intros s0.
    - cbn [app wait_disconnected]. unfold bind, ret. cbn [snd]. now rewrite Hd.
    - cbn [app wait_disconnected]. unfold bind.
      rewrite deliver_served. apply IH. }
  rewrite !wait_disconnected_served. cbn [fst snd served queue emitted annotation
                                          task_exceptions].
  rewrite readings_of_malformed, label_after_notification, failures_of_malformed
    by exact Hlen.
  do 5 (split; [reflexivity|]).
  intros env end_of_serial a Hin Hscan Hsub Htd.
  rewrite (run_complete env end_of_serial a s Hscan Hsub Htd), Hin.
  cbn [fst snd served queue]. rewrite readings_of_malformed by exact Hlen.
  split; reflexivity.
Qed.

Lemma malformed_notification_dropped_witness :
  queue (snd (wait_disconnected
                [Notification example_payload "10:00:00.10"; Notification [x00; x01] "10:00:00.18";
                 Notification example_payload "10:00:00.26"] initial_state))
  = [Some (decode example_payload "10:00:00.10" "default");
     Some (decode example_payload "10:00:00.26" "default")]
  /\ task_exceptions (snd (wait_disconnected
                [Notification example_payload "10:00:00.10"; Notification [x00; x01] "10:00:00.18";
                 Notification example_payload "10:00:00.26"] initial_state))
     = [OutOfBounds].
Proof.
  assert (Hlen : (length [x00; x01] < 18)%nat) by (simpl; lia).
  pose proof (malformed_notification_dropped
                [Notification example_payload "10:00:00.10"]
                [Notification example_payload "10:00:00.26"]
                [x00; x01] "10:00:00.18" initial_state Hlen)
    as (_ & _ & _ & _ & Hq & _ & _ & Ht & _).
  split.
  - etransitivity; [exact Hq|]. reflexivity.
  - etransitivity; [exact Ht|]. reflexivity.
Defined.

(** C8 -- The label of a reading is the annotation's value at the moment its
    notification is decoded: the value left by the button presses served
    before it. The reading then sits in the queue unchanged whatever happens
    afterwards. Two notifications with one press of the fall button between
    them give, after the header, two rows whose last cells are [default] and
    [Start], in arrival order. *)
Theorem fall_state_is_snapshot :
  (forall (evs1 : list event) (data : list byte) (now : string) (s : state),
     (18 <= length data)%nat ->
     exists r : Acceleration,
       fall_state r = annotation.fall_state (annotation (snd (wait_disconnected evs1 s)))
       /\ fall_state r = annotation.fall_state (label_after evs1 (annotation s))
       /\ timestamp_local r = now
       /\ forall evs2 : list event,
            exists later : list Acceleration,
              queue (snd (wait_disconnected (evs1 ++ Notification data now :: evs2) s))
              = queue (snd (wait_disconnected evs1 s)) ++ Some r :: map Some later)
  /\
  (forall (t1 t2 : string) (k : sink),
     k = snd (main (cooperative [sensor]
                      [Notification example_payload t1; FallButton;
                       Notification example_payload t2] true) SENSOR_ID) ->
     exists row1 row2 : list cell,
       files k = [[head; row1; row2]]
       /\ nth_error row1 1 = Some (CStr t1) /\ nth_error row1 5 = Some (CStr "default")
       /\ nth_error row2 1 = Some (CStr t2) /\ nth_error row2 5 = Some (CStr "Start")).
Proof.
  split.
  - intros evs1 data now s Hlen%well_formed_length.
    exists (decode data now (annotation.fall_state (label_after evs1 (annotation s)))).
    rewrite wait_disconnected_served. cbn [snd served annotation decode fall_state
                                           timestamp_local queue].
    repeat split.
    intros evs2.
    exists (readings_of evs2 (label_after evs1 (annotation s))).
    rewrite wait_disconnected_served. cbn [snd served queue].
    rewrite readings_of_app. cbn [readings_of]. rewrite Hlen.
    rewrite map_app, !app_nil_r, <- !app_assoc. reflexivity.
  - intros t1 t2 k ->.
    exists (as_csv_field (decode example_payload t1 "default")),
           (as_csv_field (decode example_payload t2 "Start")).
    repeat split.
Qed.

Lemma fall_state_is_snapshot_witness :
  exists row1 row2 : list cell,
    files (snd (main (cooperative [sensor]
                        [Notification example_payload "10:00:00.10"; FallButton;
                         Notification example_payload "10:00:00.18"] true) SENSOR_ID))
    = [[head; row1; row2]]
    /\ nth_error row1 5 = Some (CStr "default")
    /\ nth_error row2 5 = Some (CStr "Start").
Proof.
  destruct (proj2 fall_state_is_snapshot "10:00:00.10" "10:00:00.18" _ eq_refl)
    as (row1 & row2 & Hf & _ & H1 & _ & H2).
  exists row1, row2. repeat split; assumption.
Defined.

(** ** The queue and the sink, interleaved *)

(** C4 -- Whatever the interleaving of the puts with the consumer's gets:
    once the readings [rs] and then the sentinel were produced and nothing
    can move any more, the sink holds exactly [rs], in the order of the puts,
    it has written exactly one file -- the header row, then one row per
    reading in that order -- and its loop is left. Such a point is reached by
    some interleaving. *)
Theorem sink_fifo_single_flush (rs : list Acceleration) (rest : list item) :
  (forall (ts : list task) (c : config),
     schedule ts (start (map Some rs ++ None :: rest)) = Some c ->
     quiescent c = true ->
     DATA_POINTS (consumer c) = rs
     /\ files (consumer c) = [head :: map as_csv_field rs]
     /\ running (consumer c) = false)
  /\ (exists (ts : list task) (c : config),
        schedule ts (start (map Some rs ++ None :: rest)) = Some c
        /\ quiescent c = true)
  /\ head = map CStr ["timestamp"; "timestamp_local"; "ax"; "ay"; "az"; "fall_state"].
Proof.
  split; [|split; [apply some_schedule_quiesces|reflexivity]].
  intros ts c Hrun Hq.
  pose proof (schedule_quiescent _ ts c Hrun Hq) as H.
  rewrite run_queue_consumer_sentinel in H by reflexivity.
  injection H as -> _. repeat split.
Qed.

Lemma sink_fifo_single_flush_witness :
  files (consumer
           {| pending := []; channel := [];
              consumer :=
                {| DATA_POINTS := [decode example_payload "10:00:00.10" "default";
                                   decode example_payload "10:00:00.18" "Start"];
                   files := [[head;
                              as_csv_field (decode example_payload "10:00:00.10" "default");
                              as_csv_field (decode example_payload "10:00:00.18" "Start")]];
                   running := false |} |})
  = [head :: map as_csv_field [decode example_payload "10:00:00.10" "default";
                               decode example_payload "10:00:00.18" "Start"]].
Proof.
  refine (proj1 (proj2 (proj1 (sink_fifo_single_flush
            [decode example_payload "10:00:00.10" "default";
             decode example_payload "10:00:00.18" "Start"] [])
            [Producer; Consumer; Producer; Producer; Consumer; Consumer] _ _ _))).
  - reflexivity.
  - reflexivity.
Defined.

(** C10 -- At every moment of every interleaving, the sink's buffer is a
    front part of the readings produced before the first sentinel, and
    either no file is written or the one file of those readings is. Once the
    loop is left, everything produced after the first sentinel is still on
    the queue or still to be put. When no sentinel is produced, no file is
    ever written and the loop is never left. *)
Theorem sink_stops_at_first_sentinel :
  (forall (rs : list Acceleration) (rest : list item) (ts : list task) (c : config),
     schedule ts (start (map Some rs ++ None :: rest)) = Some c ->
     (exists n : nat, DATA_POINTS (consumer c) = take n rs)
     /\ (files (consumer c) = []
         \/ files (consumer c) = [head :: map as_csv_field rs])
     /\ (running (consumer c) = false ->
         DATA_POINTS (consumer c) = rs
         /\ files (consumer c) = [head :: map as_csv_field rs]
         /\ channel c ++ pending c = rest
         /\ forall t : task, step t c = None \/ t = Producer))
  /\
  (forall (rs : list Acceleration) (ts : list task) (c : config),
     schedule ts (start (map Some rs)) = Some c ->
     files (consumer c) = [] /\ running (consumer c) = true).
Proof.
  split.
  - intros rs rest ts c Hrun.
    pose proof (consistent_schedule _ ts _ _ (consistent_start _) Hrun) as Hc.
    unfold consistent in Hc. destruct c as [p ch [dp fs run]]; cbn in *.
    destruct run.
    + destruct Hc as [-> Hitems]. split; [|split; [now left|discriminate]].
      clear Hrun. revert dp Hitems.
      induction rs as [|r rs IH]; intros dp Hitems.
      * exists 0%nat. destruct dp; [reflexivity|discriminate].
      * destruct dp as [|d dp]; [now exists 0%nat|].
        cbn [map app] in Hitems. injection Hitems as <- Hitems.
        destruct (IH dp Hitems) as [n Hn]. exists (S n). cbn. now rewrite <- Hn.
    + destruct Hc as [-> Hitems].
      apply first_sentinel_unique in Hitems as [-> <-].
      split; [exists (length dp); now rewrite take_ge by lia|].
      split; [now right|]. intros _. repeat split.
      intros [|]; [now right|now left].
  - intros rs ts c Hrun.
    pose proof (consistent_schedule _ ts _ _ (consistent_start _) Hrun) as Hc.
    unfold consistent in Hc. destruct c as [p ch [dp fs run]]; cbn in *.
    destruct run; [now split|].
    destruct Hc as [_ Hitems]. exfalso.
    apply (no_sentinel_among_readings rs). rewrite Hitems.
    apply in_or_app. right. now left.
Qed.

Lemma sink_stops_at_first_sentinel_witness :
  DATA_POINTS (consumer
    {| pending := [];
       channel := [Some (decode example_payload "10:00:00.18" "Stop"); None];
       consumer :=
         {| DATA_POINTS := [decode example_payload "10:00:00.10" "default"];
            files := [[head; as_csv_field (decode example_payload "10:00:00.10" "default")]];
            running := false |} |})
  = [decode example_payload "10:00:00.10" "default"].
Proof.
  refine (proj1 (proj2 (proj2 (proj1 sink_stops_at_first_sentinel
            [decode example_payload "10:00:00.10" "default"]
            [Some (decode example_payload "10:00:00.18" "Stop"); None]
            [Producer; Producer; Consumer; Consumer; Producer; Producer] _ _)) _)).
  - reflexivity.
  - reflexivity.
Defined.

(** ** Discovery, as the session uses it *)

Section DiscoveryMatch.

Lemma append_empty (p s : string) : String.append p s = "" -> s = "".
Proof. destruct p; simpl; [auto|discriminate]. Qed.

(** For a non-empty identifier the loop's test is the suffix test. *)
Lemma name_test_ends_with (end_of_serial : string) (d : device) :
  end_of_serial <> "" ->
  name_test end_of_serial d = true <-> name_ends_with end_of_serial d.
Proof.
  intros Hne. rewrite name_test_spec. unfold name_ends_with. split.
  - intros (n & Hn & _ & [p Hp]%endswith_spec). now exists n, p.
  - intros (n & p & Hn & Hp). exists n. split; [exact Hn|]. split.
    + intros ->. symmetry in Hp. now apply append_empty in Hp.
    + apply endswith_spec. now exists p.
Qed.

Lemma name_test_not_ends_with (end_of_serial : string) (d : device) :
  end_of_serial <> "" ->
  name_test end_of_serial d = false <-> ~ name_ends_with end_of_serial d.
Proof.
  intros Hne. rewrite <- (name_test_ends_with end_of_serial d Hne).
  destruct (name_test end_of_serial d); split; congruence.
Qed.

End DiscoveryMatch.

(** C7 -- For a (non-empty) sensor identifier, discovery yields the address
    of the first discovered device whose name ends with the identifier,
    whatever devices follow it, and the session opens its connection to that
    address. When no discovered device has such a name, the session makes no
    client call, puts the sentinel and returns. *)
Theorem discovery_first_match (env : environment) (end_of_serial : string) (s : state) :
  end_of_serial <> "" ->
  (forall a : string,
     scan end_of_serial (discover env) = Some a
     <-> exists (pre : list device) (d : device) (post : list device),
           discover env = pre ++ d :: post /\ address d = a
           /\ name_ends_with end_of_serial d
           /\ Forall (fun d' => ~ name_ends_with end_of_serial d') pre)
  /\ (forall a : string,
        scan end_of_serial (discover env) = Some a ->
        exists calls : list request,
          gatt (snd (run_ble_client env end_of_serial s)) = gatt s ++ Connect a :: calls)
  /\ (scan end_of_serial (discover env) = None
      <-> Forall (fun d => ~ name_ends_with end_of_serial d) (discover env))
  /\ (Forall (fun d => ~ name_ends_with end_of_serial d) (discover env) ->
      run_ble_client env end_of_serial s = (Ok tt, served s [] [] [None])).
Proof.
  intros Hne.
  assert (Hall : forall l : list device,
             Forall (fun d => name_test end_of_serial d = false) l
             <-> Forall (fun d => ~ name_ends_with end_of_serial d) l).
  { intros l. apply Forall_iff. intros d. now apply name_test_not_ends_with. }
  split; [|split; [|split]].
  - intros a. rewrite scan_Some. split.
    + intros (pre & d & post & Hd & Ha & Ht & Hpre).
      exists pre, d, post. repeat split; auto.
      * now apply name_test_ends_with.
      * now apply Hall.
    + intros (pre & d & post & Hd & Ha & Ht & Hpre).
      exists pre, d, post. repeat split; auto.
      * now apply name_test_ends_with.
      * now apply Hall.
  - intros a Hscan.
    destruct (run_found env end_of_serial a s Hscan) as (r & calls & ->).
    exists calls. reflexivity.
  - rewrite scan_None. apply Hall.
  - intros H. apply run_not_found, scan_None, Hall, H.
Qed.

Lemma discovery_first_match_witness :
  scan SENSOR_ID [unnamed; other_sensor; sensor; second_sensor] = Some (address sensor)
  /\ SENSOR_ID <> "".
Proof.
  assert (Hne : SENSOR_ID <> "") by discriminate.
  split; [|exact Hne].
  apply (proj1 (discovery_first_match
                  (cooperative [unnamed; other_sensor; sensor; second_sensor] [] false)
                  SENSOR_ID initial_state Hne)).
  exists [unnamed; other_sensor], sensor, [second_sensor].
  split; [reflexivity|]. split; [reflexivity|]. split.
  - exists "Movesense 223430000278", "Movesense ". split; reflexivity.
  - apply Forall_cons. split.
    + intros (n & p & Hn & _). discriminate Hn.
    + apply Forall_cons. split; [|apply Forall_nil; exact I].
      apply (name_test_not_ends_with SENSOR_ID other_sensor Hne). reflexivity.
Defined.

(** C9 -- A device without name, or with the empty name, never passes the
    loop's test, whatever the identifier: leaving such devices out of the
    discovered list does not change the outcome of discovery, and when every
    discovered device is nameless the session takes the not-found path. *)
Theorem nameless_never_matched (env : environment) (end_of_serial : string) (s : state) :
  (forall d : device,
     name d = None \/ name d = Some "" -> name_test end_of_serial d = false)
  /\ scan end_of_serial (filter (fun d => truthy (name d) = true) (discover env))
     = scan end_of_serial (discover env)
  /\ ((forall d : device, In d (discover env) -> name d = None \/ name d = Some "") ->
      scan end_of_serial (discover env) = None
      /\ run_ble_client env end_of_serial s = (Ok tt, served s [] [] [None])).
Proof.
  assert (Hfalsy : forall d : device,
             name d = None \/ name d = Some "" -> truthy (name d) = false).
  { intros d [H|H]; now rewrite H. }
  split; [|split].
  - intros d H. apply name_test_nameless, Hfalsy, H.
  - induction (discover env) as [|d l IH]; [reflexivity|].
    destruct (truthy (name d)) eqn:E.
    + rewrite filter_cons_True by exact E. cbn [scan]. now rewrite IH.
    + rewrite filter_cons_False by (rewrite E; discriminate). cbn [scan].
      now rewrite (name_test_nameless end_of_serial d E).
  - intros Hall.
    assert (Hscan : scan end_of_serial (discover env) = None).
    { apply scan_None, List.Forall_forall. intros d Hd.
      apply name_test_nameless, Hfalsy, Hall, Hd. }
    split; [exact Hscan|]. now apply run_not_found.
Qed.

Lemma nameless_never_matched_witness :
  run_ble_client (cooperative [unnamed; blank] [] false) "" initial_state
  = (Ok tt, served initial_state [] [] [None]).
Proof.
  apply (proj2 (proj2 (nameless_never_matched
                         (cooperative [unnamed; blank] [] false) "" initial_state))).
  intros d [<-|[<-|[]]]; [left|right]; reflexivity.
Defined.

(** * Further properties of the session, the loop and the sink *)

(** Like [known_answers], for the outcome and the issued calls as well. *)
Ltac known_outcome :=
  unfold outcome, issued, body_calls, first_refused,
         subscribed, teardown_accepted, teardown_calls;
  repeat first
    [ progress cbn [forallb andb negb app List.find until_refused]
    | match goal with
      | H : accepts _ _ = _ |- _ => rewrite H
      | H : is_connected _ = _ |- _ => rewrite H
      end ].

Section SessionOutcome.

Variable env : environment.
Variable end_of_serial : string.

(** A run that found a device, in full: how it ends, which events it
    served, which calls it issued and whether it put the sentinel. *)
Lemma run_exact (a : string) (s : state) :
  scan end_of_serial (discover env) = Some a ->
  run_ble_client env end_of_serial s
  = (outcome env a,
     served s (if subscribed env a then incoming env else [])
       (issued env a)
       (if subscribed env a && teardown_accepted env then [None] else [])).
Proof.
  intros Hscan.
  destruct (accepts env (Connect a)) eqn:Hc,
           (accepts env (StartNotify NOTIFY_CHARACTERISTIC_UUID)) eqn:Hn,
           (accepts env (WriteGattChar WRITE_CHARACTERISTIC_UUID subscribe_command true)) eqn:Hw,
           (is_connected env) eqn:Hlive,
           (accepts env (WriteGattChar WRITE_CHARACTERISTIC_UUID unsubscribe_command true)) eqn:Hu,
           (accepts env (StopNotify NOTIFY_CHARACTERISTIC_UUID)) eqn:Hs,
           (accepts env Disconnect) eqn:Hx;
    run_session; known_outcome; reflexivity.
Qed.

Lemma until_refused_body (calls : list request) :
  forallb is_body_call calls = true ->
  forallb is_body_call (until_refused env calls) = true.
Proof.
  induction calls as [|r calls IH]; simpl; [reflexivity|].
  intros [Hr Hrest]%andb_true_iff. rewrite Hr. simpl.
  destruct (accepts env r); [now apply IH|reflexivity].
Qed.

Lemma body_calls_body : forallb is_body_call (body_calls env) = true.
Proof. unfold body_calls, teardown_calls. now destruct (is_connected env). Qed.

(** No call of the body refused means: subscribed, and teardown accepted. *)
Lemma first_refused_None :
  first_refused env (body_calls env) = None
  <-> accepts env (StartNotify NOTIFY_CHARACTERISTIC_UUID) = true
      /\ accepts env (WriteGattChar WRITE_CHARACTERISTIC_UUID subscribe_command true) = true
      /\ teardown_accepted env = true.
Proof.
  unfold first_refused, body_calls, teardown_accepted, teardown_calls.
  destruct (accepts env (StartNotify NOTIFY_CHARACTERISTIC_UUID)) eqn:Hn,
           (accepts env (WriteGattChar WRITE_CHARACTERISTIC_UUID subscribe_command true)) eqn:Hw,
           (is_connected env) eqn:Hlive,
           (accepts env (WriteGattChar WRITE_CHARACTERISTIC_UUID unsubscribe_command true)) eqn:Hu,
           (accepts env (StopNotify NOTIFY_CHARACTERISTIC_UUID)) eqn:Hs;
    cbn [app List.find forallb negb andb];
    rewrite ?Hn, ?Hw, ?Hu, ?Hs; cbn [negb andb]; intuition congruence.
Qed.

(** A session returns normally only when it put the sentinel. *)
Lemma outcome_Ok (a : string) :
  outcome env a = Ok tt -> subscribed env a && teardown_accepted env = true.
Proof.
  unfold outcome, subscribed.
  destruct (accepts env (Connect a)); [|discriminate].
  destruct (accepts env Disconnect); [|discriminate].
  destruct (first_refused env (body_calls env)) eqn:E; [discriminate|].
  apply first_refused_None in E as (-> & -> & ->). reflexivity.
Qed.

End SessionOutcome.

(** X1 -- Once the connection is opened it is released, and the release is
    the last client call: between the connect and the disconnect the session
    issues only notify and write calls. When the connect is refused, the
    connect is the only call, the session raises its exception and leaves
    the queue, the signal and the annotation untouched. *)
Theorem connection_released_last (env : environment) (end_of_serial a : string)
  (s : state) :
  scan end_of_serial (discover env) = Some a ->
  let run := run_ble_client env end_of_serial s in
  (accepts env (Connect a) = true ->
   exists mid : list request,
     gatt (snd run) = gatt s ++ Connect a :: mid ++ [Disconnect]
     /\ forallb is_body_call mid = true)
  /\ (accepts env (Connect a) = false ->
      fst run = Raise (BleakError (Connect a))
      /\ gatt (snd run) = gatt s ++ [Connect a]
      /\ queue (snd run) = queue s
      /\ emitted (snd run) = emitted s
      /\ annotation (snd run) = annotation s).
Proof.
  intros Hscan. cbv zeta. rewrite (run_exact env end_of_serial a s Hscan).
  unfold outcome, issued, subscribed. split; intros Hc; rewrite Hc.
  - exists (until_refused env (body_calls env)). split; [reflexivity|].
    apply until_refused_body, body_calls_body.
  - cbn [andb fst snd served gatt queue emitted annotation map readings_of
         label_after app].
    now rewrite !app_nil_r.
Qed.

Lemma connection_released_last_witness :
  fst (run_ble_client connect_refused SENSOR_ID initial_state)
  = Raise (BleakError (Connect (address sensor)))
  /\ exists mid : list request,
       gatt (snd (run_ble_client stop_notify_refused SENSOR_ID initial_state))
       = Connect (address sensor) :: mid ++ [Disconnect].
Proof.
  split.
  - apply (proj2 (connection_released_last connect_refused SENSOR_ID (address sensor)
                    initial_state eq_refl)). reflexivity.
  - destruct (proj1 (connection_released_last stop_notify_refused SENSOR_ID
                       (address sensor) initial_state eq_refl) eq_refl)
      as (mid & Hmid & _).
    exists mid. exact Hmid.
Defined.

(** X2 -- When the session coroutine returns normally, the sentinel is the
    last item it put, so the consumer coroutine has left its loop after
    writing one file with all the readings: [gather] in [main] completes. *)
Theorem normal_return_ends_consumer (env : environment) (end_of_serial : string)
  (r : result unit) (s : state) (k : sink) :
  main env end_of_serial = (r, s, k) ->
  r = Ok tt ->
  running k = false
  /\ queue s = map Some (DATA_POINTS k) ++ [None]
  /\ files k = [head :: map as_csv_field (DATA_POINTS k)].
Proof.
  unfold main.
  destruct (run_ble_client env end_of_serial initial_state) as [r0 s0] eqn:Hrun.
  intros [= <- <- <-] ->.
  destruct (scan end_of_serial (discover env)) as [a|] eqn:Hscan.
  - rewrite (run_exact env end_of_serial a _ Hscan) in Hrun.
    injection Hrun as Hout <-.
    rewrite (outcome_Ok env a Hout).
    cbn [served queue initial_state app].
    rewrite run_queue_consumer_sentinel by reflexivity.
    repeat split.
  - rewrite (run_not_found env end_of_serial _ Hscan) in Hrun.
    injection Hrun as <-. repeat split.
Qed.

Lemma normal_return_ends_consumer_witness :
  running (snd (main (cooperative [sensor] [FallButton] true) SENSOR_ID)) = false.
Proof.
  destruct (main (cooperative [sensor] [FallButton] true) SENSOR_ID)
    as [[r s] k] eqn:Hmain.
  assert (Hr : r = Ok tt) by (vm_compute in Hmain; congruence).
  exact (proj1 (normal_return_ends_consumer _ _ r s k Hmain Hr)).
Defined.

(** X3 -- A session whose connection is open but whose subscription is
    refused (enabling the notifications, or the subscribe write) is over: it
    raises, serves no event, puts nothing on the queue, and the only call
    after the refused one is the release of the connection; after a refused
    enabling the subscribe command is not written at all. *)
Theorem subscription_failure_is_fatal (env : environment) (end_of_serial a : string)
  (s : state) :
  scan end_of_serial (discover env) = Some a ->
  accepts env (Connect a) = true ->
  subscribed env a = false ->
  let run := run_ble_client env end_of_serial s in
  let enable := StartNotify NOTIFY_CHARACTERISTIC_UUID in
  let subscribe := WriteGattChar WRITE_CHARACTERISTIC_UUID subscribe_command true in
  (exists e : exn, fst run = Raise e)
  /\ queue (snd run) = queue s
  /\ emitted (snd run) = emitted s
  /\ task_exceptions (snd run) = task_exceptions s
  /\ annotation (snd run) = annotation s
  /\ gatt (snd run)
     = gatt s ++ Connect a :: enable
              :: (if accepts env enable then [subscribe] else []) ++ [Disconnect].
Proof.
  intros Hscan Hc Hsub. cbv zeta.
  rewrite (run_exact env end_of_serial a s Hscan), Hsub.
  unfold subscribed in Hsub. rewrite Hc in Hsub. cbn [andb] in Hsub.
  cbn [andb fst snd served gatt queue emitted annotation task_exceptions map
       readings_of label_after failures_of app].
  rewrite !app_nil_r. unfold outcome, issued, body_calls, first_refused.
  rewrite Hc. cbn [app List.find until_refused].
  destruct (accepts env (StartNotify NOTIFY_CHARACTERISTIC_UUID)) eqn:Hn;
    cbn [negb andb] in *.
  - rewrite Hsub. cbn [negb app].
    split; [destruct (accepts env Disconnect); eauto|]. repeat split.
  - split; [destruct (accepts env Disconnect); eauto|]. repeat split.
Qed.

Lemma subscription_failure_is_fatal_witness :
  queue (snd (run_ble_client
                {| discover := [sensor];
                   accepts := fun r => match r with StartNotify _ => false | _ => true end;
                   incoming := [Notification example_payload "10:00:00.10"];
                   is_connected := true |} SENSOR_ID initial_state))
  = [].
Proof.
  apply (subscription_failure_is_fatal
           {| discover := [sensor];
              accepts := fun r => match r with StartNotify _ => false | _ => true end;
              incoming := [Notification example_payload "10:00:00.10"];
              is_connected := true |} SENSOR_ID (address sensor) initial_state
           eq_refl eq_refl eq_refl).
Defined.

(** X4 -- In every run, what the session emitted on the data-received signal
    and what it put on the queue are the same readings in the same order;
    the queue holds in addition at most the sentinel, after all of them. *)
Theorem emitted_matches_queue (env : environment) (end_of_serial : string) :
  let s := snd (run_ble_client env end_of_serial initial_state) in
  queue s = map Some (emitted s)
            ++ (if sentinel_reached env end_of_serial then [None] else []).
Proof.
  cbv zeta. unfold sentinel_reached.
  destruct (scan end_of_serial (discover env)) as [a|] eqn:Hscan.
  - rewrite (run_exact env end_of_serial a _ Hscan). reflexivity.
  - rewrite (run_not_found env end_of_serial _ Hscan). reflexivity.
Qed.

(** ** The notification loop, further *)

Section LoopAccounting.


Lemma label_after_last_press (evs : list event) (a : annotation.AnnotateAccelerometerData) :
  annotation.fall_state (label_after evs a)
  = match last_press evs with
    | Some l => l
    | None => annotation.fall_state a
    end.
Proof.
  revert a; induction evs as [|[data now| |] evs IH]; intros a; simpl; auto;
    rewrite IH; destruct (last_press evs); reflexivity.
Qed.

Lemma readings_of_labels (evs : list event) (a : annotation.AnnotateAccelerometerData) :
  is_label (annotation.fall_state a) ->
  Forall (fun r => is_label (fall_state r)) (readings_of evs a).
Proof.
  revert a; induction evs as [|[data now| |] evs IH]; intros a Ha; simpl.
  - constructor.
  - apply Forall_app. split; [|now apply IH].
    destruct (well_formed data); [|constructor].
    constructor; [exact Ha|constructor].
  - apply IH. unfold is_label. simpl. auto.
  - apply IH. unfold is_label. simpl. auto.
Qed.

End LoopAccounting.


(** X6 -- The annotation after any run of events is the label of the last
    button pressed ([Start] for the fall button, [Stop] for the other), or
    the label it had when no button was pressed. From the initial label
    [default], every reading's [fall_state] is one of [default], [Start]
    and [Stop]. *)
Theorem label_follows_last_press (evs : list event) (s : state) :
  annotation.fall_state (annotation (snd (wait_disconnected evs s)))
  = match last_press evs with
    | Some l => l
    | None => annotation.fall_state (annotation s)
    end
  /\ Forall (fun r => is_label (fall_state r))
       (emitted (snd (wait_disconnected evs initial_state)))
  /\ (forall evs', wait_disconnected (evs ++ [FallButton; FallButton] ++ evs') s
                   = wait_disconnected (evs ++ [FallButton] ++ evs') s)
  /\ (forall evs', wait_disconnected (evs ++ [NotFallButton; NotFallButton] ++ evs') s
                   = wait_disconnected (evs ++ [NotFallButton] ++ evs') s).
Proof.
  rewrite !wait_disconnected_served. cbn [snd served annotation emitted initial_state app].
  split; [apply label_after_last_press|]. split.
  - apply readings_of_labels. unfold is_label. simpl. auto.
  - split; intros evs'; rewrite !wait_disconnected_served; unfold served;
      rewrite !readings_of_app, !label_after_app, !failures_of_app; reflexivity.
Qed.

(** X11 -- Serving a run of events in two parts is serving it at once; what
    is queued while the first part is served stays at the front of the queue
    whatever comes later. *)
Theorem loop_composes (evs1 evs2 : list event) (s : state) :
  wait_disconnected (evs1 ++ evs2) s
  = wait_disconnected evs2 (snd (wait_disconnected evs1 s))
  /\ exists later : list Acceleration,
       queue (snd (wait_disconnected (evs1 ++ evs2) s))
       = queue (snd (wait_disconnected evs1 s)) ++ map Some later.
Proof.
  rewrite !wait_disconnected_served. cbn [snd].
  rewrite served_events. split; [now rewrite app_nil_r|].
  exists (readings_of evs2 (label_after evs1 (annotation s))).
  cbn [served queue]. rewrite readings_of_app, map_app, !app_nil_r, <- !app_assoc.
  reflexivity.
Qed.

(** X12 -- The reading depends on bytes 2 to 17 of the payload only: the
    two leading bytes and whatever follows byte 17 never influence what the
    handler emits and queues. *)
Theorem handler_ignores_other_bytes (header body extra : list byte) (now : string)
  (s : state) :
  length header = 2%nat ->
  length body = 16%nat ->
  notification_handler (header ++ body ++ extra) now s
  = notification_handler ([x00; x00] ++ body) now s.
Proof.
  intros Hh Hb.
  destruct header as [|h0 [|h1 [|? ?]]]; try discriminate Hh.
  do 16 (destruct body as [|? body]; [discriminate Hb|]).
  destruct body; [|discriminate Hb].
  rewrite !handler_well_formed
    by (apply well_formed_length; cbn [app length]; lia).
  reflexivity.
Qed.

Lemma handler_ignores_other_bytes_witness :
  notification_handler
    ([xff; xfe] ++ drop 2 example_payload ++ [xaa; xbb; xcc]) "10:00:00.10" initial_state
  = notification_handler example_payload "10:00:00.10" initial_state.
Proof.
  apply (handler_ignores_other_bytes [xff; xfe] (drop 2 example_payload) [xaa; xbb; xcc]
           "10:00:00.10" initial_state); reflexivity.
Defined.

(** ** The sink, further *)

Section SinkFurther.

Lemma step_work_left (t : task) (c c' : config) :
  step t c = Some c' -> (work_left c' + 1 = work_left c)%nat.
Proof.
  unfold step, work_left. destruct t.
  - destruct (pending c) as [|x p]; [discriminate|]. intros [= <-]. cbn.
    rewrite length_app. simpl. lia.
  - destruct (running (consumer c)); [|discriminate].
    destruct (channel c) as [|x q]; [discriminate|]. intros [= <-]. cbn. lia.
Qed.

End SinkFurther.

(** X7 -- The outcome does not depend on the interleaving: two runs over the
    same produced items, each taken until nothing can move, end in the same
    configuration -- the same buffer, the same files, the same items left on
    the queue. *)
Theorem interleavings_agree (items : list item) (ts1 ts2 : list task) (c1 c2 : config) :
  schedule ts1 (start items) = Some c1 -> quiescent c1 = true ->
  schedule ts2 (start items) = Some c2 -> quiescent c2 = true ->
  c1 = c2.
Proof.
  intros H1 Hq1 H2 Hq2.
  pose proof (schedule_quiescent items ts1 c1 H1 Hq1) as E1.
  pose proof (schedule_quiescent items ts2 c2 H2 Hq2) as E2.
  apply quiescent_spec in Hq1 as [Hp1 _]. apply quiescent_spec in Hq2 as [Hp2 _].
  destruct c1 as [p1 ch1 k1], c2 as [p2 ch2 k2]. cbn in *.
  rewrite <- E2 in E1. congruence.
Qed.

Lemma interleavings_agree_witness :
  schedule [Producer; Producer; Consumer; Consumer]
    (start [Some (decode example_payload "10:00:00.10" "default"); None])
  = schedule [Producer; Consumer; Producer; Consumer]
      (start [Some (decode example_payload "10:00:00.10" "default"); None]).
Proof.
  destruct (schedule [Producer; Producer; Consumer; Consumer]
              (start [Some (decode example_payload "10:00:00.10" "default"); None]))
    as [c1|] eqn:E1; [|discriminate E1].
  destruct (schedule [Producer; Consumer; Producer; Consumer]
              (start [Some (decode example_payload "10:00:00.10" "default"); None]))
    as [c2|] eqn:E2; [|discriminate E2].
  f_equal.
  apply (interleavings_agree
           [Some (decode example_payload "10:00:00.10" "default"); None]
           [Producer; Producer; Consumer; Consumer]
           [Producer; Consumer; Producer; Consumer] c1 c2 E1).
  - injection E1 as <-. reflexivity.
  - exact E2.
  - injection E2 as <-. reflexivity.
Defined.

(** X13 -- Every interleaved run is finite: each put and each get uses up
    one unit of work, so a run over [n] produced items has at most [2 n]
    steps, and has exactly [2 n] steps when it ends with everything taken. *)
Theorem pipeline_step_bound (items : list item) (ts : list task) (c : config) :
  schedule ts (start items) = Some c ->
  (length ts + work_left c = 2 * length items)%nat
  /\ (length ts <= 2 * length items)%nat.
Proof.
  intros H.
  assert (Hgen : forall ts c0 c', schedule ts c0 = Some c' ->
                   (length ts + work_left c' = work_left c0)%nat).
  { clear. induction ts as [|t ts IH]; intros c0 c'; simpl.
    - intros [= <-]. reflexivity.
    - destruct (step t c0) as [c1|] eqn:E; [|discriminate].
      intros Hs. apply IH in Hs. apply step_work_left in E. lia. }
  apply Hgen in H. unfold start, work_left in *. cbn [pending channel length] in H.
  split; lia.
Qed.

Lemma pipeline_step_bound_witness :
  (length [Producer; Consumer; Producer; Consumer] <= 2 * 2)%nat.
Proof.
  refine (proj2 (pipeline_step_bound
            [Some (decode example_payload "10:00:00.10" "default"); None]
            [Producer; Consumer; Producer; Consumer] _ _)).
  reflexivity.
Defined.

(** X14 -- The consumer can be fed in two batches: when it is still in its
    loop after the first batch it goes on with the second, and when it left
    the loop in the first batch the second batch stays on the queue behind
    what was left. *)
Theorem consumer_composes (q1 q2 : list item) (k : sink) :
  running k = true ->
  run_queue_consumer (q1 ++ q2) k
  = (if running (fst (run_queue_consumer q1 k))
     then run_queue_consumer q2 (fst (run_queue_consumer q1 k))
     else (fst (run_queue_consumer q1 k), snd (run_queue_consumer q1 k) ++ q2)).
Proof.
  revert k; induction q1 as [|x q1 IH]; intros k Hk.
  - cbn [app run_queue_consumer fst snd]. now rewrite Hk.
  - cbn [app run_queue_consumer].
    destruct (running (consume x k)) eqn:E.
    + now apply IH.
    + cbn [fst snd]. now rewrite E.
Qed.

Lemma consumer_composes_witness :
  run_queue_consumer
    ([Some (decode example_payload "10:00:00.10" "default")] ++ [None]) initial_sink
  = run_queue_consumer [None]
      (fst (run_queue_consumer [Some (decode example_payload "10:00:00.10" "default")]
              initial_sink)).
Proof.
  exact (consumer_composes [Some (decode example_payload "10:00:00.10" "default")]
           [None] initial_sink eq_refl).
Defined.

(** X8 -- [DATA_POINTS] is never cleared. A consumer started again in the
    same process appends to what the earlier one collected, so the file of
    the second session starts (after the header) with all the rows of the
    first, followed by its own; the first file is left as it was. *)
Theorem rows_accumulate_across_sessions (rs1 rs2 : list Acceleration)
  (rest1 rest2 : list item) :
  let k1 := fst (run_queue_consumer (map Some rs1 ++ None :: rest1) initial_sink) in
  let k2 := fst (run_queue_consumer (map Some rs2 ++ None :: rest2) (next_session k1)) in
  DATA_POINTS k1 = rs1
  /\ DATA_POINTS k2 = rs1 ++ rs2
  /\ files k2 = [head :: map as_csv_field rs1;
                 head :: map as_csv_field rs1 ++ map as_csv_field rs2].
Proof.
  cbv zeta. rewrite run_queue_consumer_sentinel by reflexivity.
  cbn [fst initial_sink DATA_POINTS files app].
  rewrite run_queue_consumer_sentinel by reflexivity.
  cbn [fst next_session DATA_POINTS files app]. now rewrite map_app.
Qed.

(** ** The pipeline, further *)

(** X9 -- The file does not depend on the release of the connection: when
    the subscription and the teardown calls were accepted and only the final
    disconnect is refused, [main] ends with that exception, but the sentinel
    was put before, and the sink has written the one file with every reading
    served. *)
Theorem flush_survives_release_failure (env : environment) (end_of_serial a : string)
  (r : result unit) (s : state) (k : sink) :
  main env end_of_serial = (r, s, k) ->
  scan end_of_serial (discover env) = Some a ->
  subscribed env a = true ->
  teardown_accepted env = true ->
  accepts env Disconnect = false ->
  r = Raise (BleakError Disconnect)
  /\ files k = [head :: map as_csv_field (readings_of (incoming env) annotation.init)]
  /\ running k = false.
Proof.
  unfold main. intros Hmain Hscan Hsub Htd Hx.
  rewrite (run_complete env end_of_serial a _ Hscan Hsub Htd), Hx in Hmain.
  injection Hmain as <- <- <-.
  cbn [served queue initial_state annotation app].
  rewrite run_queue_consumer_sentinel by reflexivity. repeat split.
Qed.

Lemma flush_survives_release_failure_witness :
  files (snd (main {| discover := [sensor];
                      accepts := fun r => match r with Disconnect => false | _ => true end;
                      incoming := [NotFallButton]; is_connected := false |} SENSOR_ID))
  = [[head]].
Proof.
  destruct (main {| discover := [sensor];
                    accepts := fun r => match r with Disconnect => false | _ => true end;
                    incoming := [NotFallButton]; is_connected := false |} SENSOR_ID)
    as [[r s] k] eqn:Hmain.
  exact (proj1 (proj2 (flush_survives_release_failure _ _ (address sensor) r s k Hmain
                         eq_refl eq_refl eq_refl eq_refl))).
Defined.

(** X10 -- A refused teardown call costs the data: the readings served are
    all in [DATA_POINTS], the consumer is still in its loop where [gather]
    cancels it, and no file was written. *)
Theorem teardown_failure_loses_file (env : environment) (end_of_serial a : string)
  (r : result unit) (s : state) (k : sink) :
  main env end_of_serial = (r, s, k) ->
  scan end_of_serial (discover env) = Some a ->
  subscribed env a = true ->
  teardown_accepted env = false ->
  (exists e : exn, r = Raise e)
  /\ DATA_POINTS k = readings_of (incoming env) annotation.init
  /\ files k = []
  /\ running k = true.
Proof.
  unfold main. intros Hmain Hscan Hsub Htd.
  rewrite (run_exact env end_of_serial a _ Hscan), Hsub, Htd in Hmain.
  injection Hmain as <- <- <-.
  cbn [andb served queue initial_state annotation app].
  rewrite app_nil_r, run_queue_consumer_waiting by reflexivity.
  split; [|repeat split].
  destruct (outcome env a) as [[]|e] eqn:E; [|now exists e].
  apply outcome_Ok in E. rewrite Hsub, Htd in E. discriminate E.
Qed.

Lemma teardown_failure_loses_file_witness :
  files (snd (main {| discover := [sensor];
                      accepts := fun r => match r with StopNotify _ => false | _ => true end;
                      incoming := [FallButton]; is_connected := true |} SENSOR_ID))
  = [].
Proof.
  destruct (main {| discover := [sensor];
                    accepts := fun r => match r with StopNotify _ => false | _ => true end;
                    incoming := [FallButton]; is_connected := true |} SENSOR_ID)
    as [[r s] k] eqn:Hmain.
  exact (proj1 (proj2 (proj2 (teardown_failure_loses_file _ _ (address sensor) r s k Hmain
                                eq_refl eq_refl eq_refl)))).
Defined.

(** ** Discovery, further *)

Section DiscoveryFurther.

Lemma string_append_empty_r (s : string) : String.append s "" = s.
Proof.
  induction s as [|c s IH]; [reflexivity|].
  change (String c (String.append s "") = String c s). now rewrite IH.
Qed.

Lemma endswith_empty (s : string) : endswith s "" = true.
Proof. apply endswith_spec. exists s. now rewrite string_append_empty_r. Qed.

Lemma endswith_shorter (s suffix : string) :
  (String.length s < String.length suffix)%nat -> endswith s suffix = false.
Proof.
  intros H. unfold endswith.
  replace (String.length suffix <=? String.length s)%nat with false; [reflexivity|].
  symmetry. apply Nat.leb_gt, H.
Qed.

End DiscoveryFurther.

(** X15 -- Edge cases of the discovery loop. Devices after a matching one
    are not looked at, and a list scanned in two parts gives the first
    part's match when there is one. A name shorter than the identifier never
    matches. With the empty identifier the test is only that the device has
    a non-empty name, so the first named device is taken. *)
Theorem discovery_edge_cases (end_of_serial : string) (l1 l2 : list device) :
  scan end_of_serial (l1 ++ l2)
  = match scan end_of_serial l1 with
    | Some a => Some a
    | None => scan end_of_serial l2
    end
  /\ (forall (d : device) (n : string),
        name d = Some n ->
        (String.length n < String.length end_of_serial)%nat ->
        name_test end_of_serial d = false)
  /\ (forall d : device, name_test "" d = truthy (name d)).
Proof.
  split; [|split].
  - induction l1 as [|d l1 IH]; simpl; [reflexivity|].
    destruct (name_test end_of_serial d); [reflexivity|exact IH].
  - intros d n Hn Hlen. unfold name_test. rewrite Hn.
    rewrite (endswith_shorter n end_of_serial Hlen). now destruct (truthy (Some n)).
  - intros d. unfold name_test. destruct (name d) as [n|]; [|reflexivity].
    rewrite endswith_empty. now destruct (truthy (Some n)).
Qed.

Lemma discovery_edge_cases_witness :
  name_test SENSOR_ID {| name := Some "0278"; address := "5A:10:22:31:44:52" |} = false.
Proof.
  apply (proj1 (proj2 (discovery_edge_cases SENSOR_ID [] []))
           {| name := Some "0278"; address := "5A:10:22:31:44:52" |} "0278").
  - reflexivity.
  - simpl. lia.
Defined.
